(** * A shallow embedding of the RAG engine

    Sources: backend/rag_engine.py and backend/main.py.

    Python strings are modelled as [string]; a character is a code point below
    256, the range the standard [ascii] type covers.  Python integers are [Z]
    where the source takes an [int] argument and [nat] where it counts
    ([len], [enumerate], list positions).  Exceptions are values of [Exn]
    carried by [Result]. *)

From Stdlib Require Import ZArith QArith List String Ascii Lia.
From stdpp Require Import base list strings gmap pretty.

(** ** Exceptions and results *)

Inductive Exn : Type :=
| ValueError (msg : string)
| AttributeError (msg : string)
| NotFoundError (index_name : string)
| ProviderError (call_no : nat).

Inductive Result (A : Type) : Type :=
| Ok (a : A)
| Raise (e : Exn).

Arguments Ok {A} a.
Arguments Raise {A} e.

(** ** The Python built-ins the engine relies on *)

Module Py.

(** [str.isspace] on one character: TAB..CR, FS..US, SPACE, NEL and NBSP are
    the white-space code points below 256. *)
Definition isspace (c : ascii) : bool :=
  let n := nat_of_ascii c in
  ((9 <=? n) && (n <=? 13)) || ((28 <=? n) && (n <=? 32))
  || (n =? 133) || (n =? 160).

(** Truth value of a string: only the empty string is falsy. *)
Definition truthy (s : string) : bool :=
  match s with
  | EmptyString => false
  | String _ _ => true
  end.

(** The word under construction is emitted when it is not empty. *)
Definition flush (cur : string) : list string :=
  if truthy cur then [cur] else [].

(** [text.split()] with no separator: scan left to right, [cur] holds the
    characters of the word being read; a white-space character ends it. *)
Fixpoint split_go (cur s : string) : list string :=
  match s with
  | EmptyString => flush cur
  | String c s' =>
      if isspace c then flush cur ++ split_go "" s'
      else split_go (cur +:+ String c "") s'
  end.

Definition split (text : string) : list string := split_go "" text.

(** [sep.join(parts)] *)
Definition join (sep : string) (parts : list string) : string :=
  String.concat sep parts.

Fixpoint lstrip (s : string) : string :=
  match s with
  | EmptyString => ""
  | String c s' => if isspace c then lstrip s' else s
  end.

Fixpoint rstrip (s : string) : string :=
  match s with
  | EmptyString => ""
  | String c s' =>
      match rstrip s' with
      | EmptyString => if isspace c then "" else String c ""
      | r => String c r
      end
  end.

(** [s.strip()] *)
Definition strip (s : string) : string := rstrip (lstrip s).

(** [range(0, stop, step)] for a positive [step]: its length is computed up
    front as the ceiling of [stop / step], the j-th element is [j * step]. *)
Definition range0 (stop step : nat) : list nat :=
  (fun j => j * step) <$> seq 0 ((stop + step - 1) / step).

(** [xs[i:j]]: slicing clamps to the length of the list. *)
Definition slice {A : Type} (xs : list A) (i j : nat) : list A :=
  take (j - i) (drop i xs).

(** [s.endswith(suffix)] *)
Definition endswith (s suffix : string) : bool :=
  let n := String.length s in
  let m := String.length suffix in
  (m <=? n) && String.eqb (substring (n - m) m s) suffix.

(** [str(i)] for a non-negative integer: its decimal numeral. *)
Definition str_of_nat (i : nat) : string := pretty i.

End Py.

Section rag.

(** ** Data model of the engine *)

(** An embedding is a list of floats the engine never inspects, and so is a
    similarity score: both are left abstract. *)
Variables Vec Score : Type.

(** One entry of [documents] in [index_documents]. *)
Record Document : Type := {
  doc_id : string;
  doc_text : string;
  doc_source : string;
  doc_chunk_index : nat
}.

Record Metadata : Type := {
  meta_text : string;
  meta_source : string;
  meta_chunk_index : nat
}.

(** A record as it is upserted: [{'id', 'values', 'metadata'}]. *)
Record Vector : Type := {
  vec_id : string;
  vec_values : Vec;
  vec_metadata : Metadata
}.

(** One element of [results['matches']]. *)
Record Match : Type := {
  match_id : string;
  match_score : Score;
  match_metadata : Metadata
}.

(** One retrieved chunk: [{'text', 'source', 'score'}]. *)
Record Chunk : Type := {
  chunk_body : string;
  chunk_source : string;
  chunk_score : Score
}.

(** A chat message: role and content. *)
Record Message : Type := { role : string; content : string }.

(** The calls the engine makes on the Pinecone and OpenAI clients. *)
Inductive Call : Type :=
| ListIndexes
| CreateIndex (name : string) (dimension : Z) (metric cloud region : string)
| ConnectIndex (name : string)
| DescribeIndexStats (index : string)
| Upsert (index : string) (vectors : list Vector)
| QueryIndex (index : string) (vector : Vec) (top_k : Z)
    (include_metadata : bool)
| EmbeddingsCreate (model input : string)
| ChatCompletionsCreate (model : string) (messages : list Message)
    (temperature : Q) (max_tokens : Z).

(** What lies outside the engine: the Pinecone project (each index name with
    its records by id), the files of the data directory in [os.listdir] order
    with their contents, and the calls made so far, oldest first. *)
Record World : Type := {
  pinecone : gmap string (gmap string Vector);
  files : list (string * string);
  trace : list Call
}.

(** How the providers answer.  [fault n] tells whether the call number [n]
    (counted from 0 over the whole trace) raises; [embedding] is the
    embedding model; [ranking] is the store's similarity order over the
    records of an index; [completion] is the language model. *)
Record Providers : Type := {
  fault : nat -> bool;
  embedding : string -> string -> Vec;
  ranking : Vec -> gmap string Vector -> list Match;
  completion : string -> list Message -> string
}.

(** The fields of [self]. *)
Record Engine : Type := {
  pinecone_api_key : string;
  openai_api_key : string;
  index_name : string;
  index : option string;
  embedding_model : string;
  embedding_dimension : Z;
  llm_model : string
}.

(** ** Computations: state passing over the world, with exceptions.
    The world reached when an exception is raised is kept. *)

Definition M (A : Type) : Type := World -> Result A * World.

Definition ret {A : Type} (a : A) : M A := fun w => (Ok a, w).

Definition raise {A : Type} (e : Exn) : M A := fun w => (Raise e, w).

Definition bind {A B : Type} (m : M A) (k : A -> M B) : M B :=
  fun w =>
    match m w with
    | (Ok a, w') => k a w'
    | (Raise e, w') => (Raise e, w')
    end.

Definition get : M World := fun w => (Ok w, w).

Definition lift {A : Type} (r : Result A) : M A := fun w => (r, w).

Local Notation "'let*' x ':=' m 'in' k" := (bind m (fun x => k))
  (at level 10, x name, m at level 100, k at level 200).
Local Notation "m ';;' k" := (bind m (fun _ => k))
  (at level 100, k at level 200, right associativity).

Fixpoint for_each {A : Type} (xs : list A) (body : A -> M unit) : M unit :=
  match xs with
  | [] => ret tt
  | x :: xs' => body x ;; for_each xs' body
  end.

(** A list comprehension, or a loop appending one result per element. *)
Fixpoint collect {A B : Type} (f : A -> M B) (xs : list A) : M (list B) :=
  match xs with
  | [] => ret []
  | x :: xs' =>
      let* y := f x in
      let* ys := collect f xs' in
      ret (y :: ys)
  end.

Definition log (cs : list Call) (w : World) : World :=
  {| pinecone := pinecone w; files := files w; trace := trace w ++ cs |}.

Definition set_pinecone (p : gmap string (gmap string Vector)) (w : World)
    : World :=
  {| pinecone := p; files := files w; trace := trace w |}.

Variable providers : Providers.

(** A call on a client: it is recorded, then it raises if the providers
    fail at this point. *)
Definition call (c : Call) : M unit :=
  fun w =>
    let n := length (trace w) in
    if fault providers n then (Raise (ProviderError n), log [c] w)
    else (Ok tt, log [c] w).

(** Insert-or-replace by id, in the order of the batch. *)
Definition upsert_records (recs : gmap string Vector) (vectors : list Vector)
    : gmap string Vector :=
  foldl (fun m v => <[vec_id v := v]> m) recs vectors.

(** Modelled from the spec: the vector store, which is outside the
    repository, follows the boundary contract of section 4.3. *)
Definition pc_list_indexes : M (list string) :=
  call ListIndexes ;;
  let* w := get in
  ret (elements (dom (pinecone w))).

Definition pc_create_index (name : string) (dimension : Z)
    (metric cloud region : string) : M unit :=
  call (CreateIndex name dimension metric cloud region) ;;
  fun w =>
    match pinecone w !! name with
    | Some _ => (Ok tt, w)
    | None => (Ok tt, set_pinecone (<[name := ∅]> (pinecone w)) w)
    end.

Definition pc_Index (name : string) : M string :=
  call (ConnectIndex name) ;; ret name.

Definition records_of (handle : string) : M (gmap string Vector) :=
  fun w =>
    match pinecone w !! handle with
    | Some recs => (Ok recs, w)
    | None => (Raise (NotFoundError handle), w)
    end.

(** [describe_index_stats()['total_vector_count']] *)
Definition index_describe_index_stats (handle : string) : M nat :=
  call (DescribeIndexStats handle) ;;
  let* recs := records_of handle in
  ret (size recs).

Definition index_upsert (handle : string) (vectors : list Vector) : M unit :=
  call (Upsert handle vectors) ;;
  let* recs := records_of handle in
  fun w =>
    (Ok tt,
     set_pinecone (<[handle := upsert_records recs vectors]> (pinecone w)) w).

(** At most [top_k] records, in ranked order. *)
Definition index_query (handle : string) (vector : Vec) (top_k : Z)
    (include_metadata : bool) : M (list Match) :=
  call (QueryIndex handle vector top_k include_metadata) ;;
  let* recs := records_of handle in
  ret (take (Z.to_nat top_k) (ranking providers vector recs)).

Definition embeddings_create (model input : string) : M Vec :=
  call (EmbeddingsCreate model input) ;; ret (embedding providers model input).

Definition chat_completions_create (model : string) (messages : list Message)
    (temperature : Q) (max_tokens : Z) : M string :=
  call (ChatCompletionsCreate model messages temperature max_tokens) ;;
  ret (completion providers model messages).

(** [self.index.<method>]: [self.index] is [None] until [initialize] ran. *)
Definition the_index (self : Engine) : M string :=
  match index self with
  | Some handle => ret handle
  | None => raise (AttributeError "'NoneType' object has no attribute")
  end.

(** ** The methods of [RAGEngine] *)

Definition nl : string := String "010"%char "".

(** [RAGEngine.__init__]: the keys come from the environment; a missing or
    empty key raises before any client is built. *)
Definition init (environ : gmap string string) : Result Engine :=
  let pinecone_api_key := environ !! "PINECONE_API_KEY" in
  let openai_api_key := environ !! "OPENAI_API_KEY" in
  match pinecone_api_key with
  | None | Some EmptyString =>
      Raise (ValueError "PINECONE_API_KEY not found in environment variables")
  | Some pkey =>
      match openai_api_key with
      | None | Some EmptyString =>
          Raise (ValueError "OPENAI_API_KEY not found in environment variables")
      | Some okey =>
          Ok {| pinecone_api_key := pkey;
                openai_api_key := okey;
                index_name := "acme-tech-chatbot";
                index := None;
                embedding_model := "text-embedding-3-small";
                embedding_dimension := 1536;
                llm_model := "gpt-3.5-turbo" |}
      end
  end.

(** [for i in range(0, len(words), chunk_size)]: one iteration of the body. *)
Definition chunk_step (words : list string) (chunk_size : nat)
    (chunks : list string) (i : nat) : list string :=
  let chunk := Py.join " " (Py.slice words i (i + chunk_size)) in
  if Py.truthy (Py.strip chunk) then chunks ++ [Py.strip chunk] else chunks.

(** [RAGEngine.chunk_text].  A zero step makes [range] raise; a negative step
    makes it empty. *)
Definition chunk_text (text : string) (chunk_size : Z) : Result (list string) :=
  let words := Py.split text in
  match chunk_size with
  | Z0 => Raise (ValueError "range() arg 3 must not be zero")
  | Zneg _ => Ok []
  | Zpos p =>
      let k := Pos.to_nat p in
      Ok (foldl (chunk_step words k) [] (Py.range0 (length words) k))
  end.

Definition default_chunk_size : Z := 512.

(** [RAGEngine.get_embedding] *)
Definition get_embedding (self : Engine) (text : string) : M Vec :=
  embeddings_create (embedding_model self) text.

(** The entries one file contributes to [documents]: its chunks, numbered by
    [enumerate]. *)
Definition file_documents (filename : string) (chunks : list string)
    : list Document :=
  imap (fun i chunk =>
          {| doc_id := filename +:+ "_" +:+ Py.str_of_nat i;
             doc_text := chunk;
             doc_source := filename;
             doc_chunk_index := i |}) chunks.

(** The first loop of [index_documents]: every [.txt] or [.md] file of the
    data directory is read and chunked. *)
Fixpoint read_documents (listing : list (string * string))
    (documents : list Document) : Result (list Document) :=
  match listing with
  | [] => Ok documents
  | (filename, content) :: listing' =>
      if Py.endswith filename ".txt" || Py.endswith filename ".md" then
        match chunk_text content default_chunk_size with
        | Ok chunks =>
            read_documents listing' (documents ++ file_documents filename chunks)
        | Raise e => Raise e
        end
      else read_documents listing' documents
  end.

Definition batch_size : nat := 100.

(** The inner loop of [index_documents], for one document of a batch. *)
Definition embed_document (self : Engine) (doc : Document) : M Vector :=
  let* e := get_embedding self (doc_text doc) in
  ret {| vec_id := doc_id doc;
         vec_values := e;
         vec_metadata := {| meta_text := doc_text doc;
                            meta_source := doc_source doc;
                            meta_chunk_index := doc_chunk_index doc |} |}.

(** The body of the batch loop. *)
Definition index_batch (self : Engine) (batch : list Document) : M unit :=
  let* vectors := collect (embed_document self) batch in
  let* handle := the_index self in
  index_upsert handle vectors.

(** [RAGEngine.index_documents] *)
Definition index_documents (self : Engine) : M unit :=
  let* w := get in
  let* documents := lift (read_documents (files w) []) in
  for_each (Py.range0 (length documents) batch_size)
    (fun i => index_batch self (Py.slice documents i (i + batch_size))).

(** [RAGEngine.initialize].  [self.index] is assigned once the handle is
    obtained; the engine is returned as the call leaves it. *)
Definition initialize (self : Engine) (w : World)
    : Result unit * Engine * World :=
  let connect :=
    let* existing_indexes := pc_list_indexes in
    (if bool_decide (index_name self ∈ existing_indexes) then ret tt
     else pc_create_index (index_name self) (embedding_dimension self)
            "cosine" "aws" "us-east-1") ;;
    pc_Index (index_name self) in
  match connect w with
  | (Raise e, w1) => (Raise e, self, w1)
  | (Ok handle, w1) =>
      let self1 :=
        {| pinecone_api_key := pinecone_api_key self;
           openai_api_key := openai_api_key self;
           index_name := index_name self;
           index := Some handle;
           embedding_model := embedding_model self;
           embedding_dimension := embedding_dimension self;
           llm_model := llm_model self |} in
      let populate :=
        let* handle1 := the_index self1 in
        let* total_vector_count := index_describe_index_stats handle1 in
        if (total_vector_count =? 0)%nat then index_documents self1
        else ret tt in
      let (r, w2) := populate w1 in
      (r, self1, w2)
  end.

Definition default_top_k : Z := 3.

(** The chunk appended for one match. *)
Definition chunk_of_match (m : Match) : Chunk :=
  {| chunk_body := meta_text (match_metadata m);
     chunk_source := meta_source (match_metadata m);
     chunk_score := match_score m |}.

(** [RAGEngine.retrieve_relevant_chunks] *)
Definition retrieve_relevant_chunks (self : Engine) (query : string) (top_k : Z)
    : M (list Chunk) :=
  let* query_embedding := get_embedding self query in
  let* handle := the_index self in
  let* matches := index_query handle query_embedding top_k true in
  ret (chunk_of_match <$> matches).

(** One element of the comprehension that builds the context. *)
Definition context_entry (chunk : Chunk) : string :=
  "[Source: " +:+ chunk_source chunk +:+ "]" +:+ nl +:+ chunk_body chunk.

Definition build_context (context_chunks : list Chunk) : string :=
  Py.join (nl +:+ nl) (context_entry <$> context_chunks).

Definition build_prompt (query context : string) : string :=
  "You are a helpful assistant for Acme Tech Solutions. Answer the user's question based on the following context from company documents."
  +:+ nl +:+ nl +:+ "Context:" +:+ nl +:+ context
  +:+ nl +:+ nl +:+ "User Question: " +:+ query
  +:+ nl +:+ nl +:+ "Instructions:"
  +:+ nl +:+ "- Answer based on the provided context"
  +:+ nl +:+ "- Be helpful and conversational"
  +:+ nl +:+ "- If the context doesn't contain enough information to answer fully, say so"
  +:+ nl +:+ "- Do not make up information not present in the context"
  +:+ nl +:+ nl +:+ "Answer:".

Definition chat_messages (prompt : string) : list Message :=
  [ {| role := "system";
       content := "You are a helpful assistant for Acme Tech Solutions." |};
    {| role := "user"; content := prompt |} ].

(** [RAGEngine.generate_response] *)
Definition generate_response (self : Engine) (query : string)
    (context_chunks : list Chunk) : M string :=
  let context := build_context context_chunks in
  let prompt := build_prompt query context in
  chat_completions_create (llm_model self) (chat_messages prompt)
    (7 # 10)%Q 500.

(** [list(set(xs))]: the distinct elements, in an order the set chooses. *)
Definition list_of_set (xs : list string) : list string :=
  elements (list_to_set xs : gset string).

(** [RAGEngine.query] *)
Definition query (self : Engine) (user_query : string)
    : M (string * list string) :=
  let* relevant_chunks := retrieve_relevant_chunks self user_query default_top_k in
  let* response := generate_response self user_query relevant_chunks in
  let sources := list_of_set (chunk_source <$> relevant_chunks) in
  ret (response, sources).

(** ** main.py *)

(** The start-up half of [lifespan], up to [yield]: the result is [Raise]
    when the exception is re-raised and the application never starts; the
    second component is the global [rag_engine] as start-up leaves it. *)
Definition lifespan (environ : gmap string string) (w : World)
    : Result unit * option Engine * World :=
  match init environ with
  | Raise e => (Raise e, None, w)
  | Ok engine =>
      let '(r, engine1, w1) := initialize engine w in
      (r, Some engine1, w1)
  end.

(** [str(e)]: the message of an exception, as the runtime and the client
    libraries word it. *)
Variable str_of_exception : Exn -> string.

(** What the [/api/chat] endpoint answers: a [ChatResponse], or an
    [HTTPException] raised to the framework. *)
Inductive ChatReply : Type :=
| ChatResponse (response : string) (sources : list string)
| HTTPException (status_code : Z) (detail : string).

(** [chat]: [rag_engine] is the global set by [lifespan]. *)
Definition chat (rag_engine : option Engine) (message : string) (w : World)
    : ChatReply * World :=
  match rag_engine with
  | None => (HTTPException 503 "RAG engine not initialized", w)
  | Some engine =>
      match query engine message w with
      | (Ok (response, sources), w1) => (ChatResponse response sources, w1)
      | (Raise e, w1) =>
          (HTTPException 500
             ("Error processing request: " +:+ str_of_exception e), w1)
      end
  end.

(** ** Notions used to state the properties *)

(** A string without white space. *)
Fixpoint no_space (s : string) : bool :=
  match s with
  | EmptyString => true
  | String c s' => negb (Py.isspace c) && no_space s'
  end.

(** What [split] produces: non-empty strings without white space. *)
Definition word (w : string) : Prop :=
  Py.truthy w = true /\ no_space w = true.

(** A text made of white space only. *)
Fixpoint blank (s : string) : bool :=
  match s with
  | EmptyString => true
  | String c s' => Py.isspace c && blank s'
  end.

(** The slices [xs[i:i + k]] for [i] in [range(0, len(xs), k)]: what both
    loops of the engine ([chunk_text] over words, [index_documents] over
    documents) walk through. *)
Definition windows {A : Type} (xs : list A) (k : nat) : list (list A) :=
  (fun i => Py.slice xs i (i + k)) <$> Py.range0 (length xs) k.

(** The ceiling of [n / k]. *)
Definition ceil_div (n k : nat) : nat := (n + k - 1) / k.

Definition is_embedding_call (c : Call) : bool :=
  match c with
  | EmbeddingsCreate _ _ => true
  | _ => false
  end.

Definition is_upsert_call (c : Call) : bool :=
  match c with
  | Upsert _ _ => true
  | _ => false
  end.

(** The providers do not fail on the calls numbered [from .. from + count - 1]. *)
Definition no_fault (from count : nat) : Prop :=
  forall i, i < count -> fault providers (from + i) = false.

(** The chunks [chunk_text] makes of a file with the default size. *)
Definition default_chunks (content : string) : list string :=
  Py.join " " <$> windows (Py.split content) 512.

(** The documents the first loop of [index_documents] builds. *)
Definition documents_of (listing : list (string * string)) : list Document :=
  listing ≫= (fun entry =>
    if Py.endswith entry.1 ".txt" || Py.endswith entry.1 ".md"
    then file_documents entry.1 (default_chunks entry.2)
    else []).

(** The record upserted for a document. *)
Definition vector_of (self : Engine) (doc : Document) : Vector :=
  {| vec_id := doc_id doc;
     vec_values := embedding providers (embedding_model self) (doc_text doc);
     vec_metadata := {| meta_text := doc_text doc;
                        meta_source := doc_source doc;
                        meta_chunk_index := doc_chunk_index doc |} |}.

Definition embedding_calls (self : Engine) (batch : list Document) : list Call :=
  (fun doc => EmbeddingsCreate (embedding_model self) (doc_text doc)) <$> batch.

(** The calls a batch gives rise to when nothing fails: one embedding per
    document, then one upsert. *)
Definition batch_calls (self : Engine) (handle : string)
    (batch : list Document) : list Call :=
  embedding_calls self batch ++ [Upsert handle (vector_of self <$> batch)].

(** The records of the index once the given batches are upserted. *)
Definition upsert_batches (self : Engine) (recs : gmap string Vector)
    (batches : list (list Document)) : gmap string Vector :=
  foldl (fun m batch => upsert_records m (vector_of self <$> batch))
    recs batches.

(** The world after some calls that left the index [handle] with [recs]. *)
Definition world_after (w : World) (handle : string)
    (recs : gmap string Vector) (calls : list Call) : World :=
  {| pinecone := <[handle := recs]> (pinecone w);
     files := files w;
     trace := trace w ++ calls |}.

(** The ids of the records a sequence of calls upserts. *)
Definition upserted_ids (calls : list Call) : list string :=
  calls ≫= (fun c =>
    match c with
    | Upsert _ vectors => vec_id <$> vectors
    | _ => []
    end).

(** The record kept under the id [k], when there is one, carries that id. *)
Definition holds_id (recs : gmap string Vector) (k : string) : Prop :=
  exists v, recs !! k = Some v /\ vec_id v = k.

(** The matches the store returns for a question. *)
Definition matches_for (self : Engine) (user_query : string)
    (recs : gmap string Vector) : list Match :=
  take (Z.to_nat default_top_k)
    (ranking providers
       (embedding providers (embedding_model self) user_query) recs).

(** The attribution header and text of one match, as the context shows it. *)
Definition match_entry (m : Match) : string :=
  "[Source: " +:+ meta_source (match_metadata m) +:+ "]" +:+ nl
  +:+ meta_text (match_metadata m).

(** All the calls of a run over the given batches when nothing fails. *)
Definition calls_of (self : Engine) (handle : string)
    (batches : list (list Document)) : list Call :=
  concat (batch_calls self handle <$> batches).

(** The segments carry the words of the text, in order, and none has more
    than [chunk_size] words. *)
Definition carries_words (text : string) (chunk_size : Z)
    (chunks : list string) : Prop :=
  concat (Py.split <$> chunks) = Py.split text
  /\ Forall (fun c => (Z.of_nat (length (Py.split c)) <= chunk_size)%Z) chunks.

(** A string without the character that separates a file name from a chunk
    index in an id. *)
Fixpoint no_underscore (s : string) : bool :=
  match s with
  | EmptyString => true
  | String c s' => negb (Ascii.eqb c "_") && no_underscore s'
  end.

(** A segment in normal form: not empty, no white space at either end, and
    its words separated by exactly one space. *)
Definition normalised (c : string) : Prop :=
  Py.truthy c = true
  /\ Py.strip c = c
  /\ Py.join " " (Py.split c) = c.

(** The files [index_documents] reads: those named [*.txt] or [*.md]. *)
Definition eligible (filename : string) : bool :=
  Py.endswith filename ".txt" || Py.endswith filename ".md".

(** The calls an indexing run may make: an embedding with the engine's
    model, or an upsert into the engine's index of 1 to 100 records. *)
Definition indexing_call (self : Engine) (handle : string) (c : Call) : Prop :=
  match c with
  | EmbeddingsCreate model _ => model = embedding_model self
  | Upsert h vectors => h = handle /\ 0 < length vectors <= batch_size
  | _ => False
  end.

(** The engine as [initialize] leaves it: [self.index] holds the handle of
    its own index. *)
Definition connected (self : Engine) : Engine :=
  {| pinecone_api_key := pinecone_api_key self;
     openai_api_key := openai_api_key self;
     index_name := index_name self;
     index := Some (index_name self);
     embedding_model := embedding_model self;
     embedding_dimension := embedding_dimension self;
     llm_model := llm_model self |}.

(** The calls of a start-up that finds its index populated. *)
Definition guard_calls (self : Engine) : list Call :=
  [ListIndexes; ConnectIndex (index_name self);
   DescribeIndexStats (index_name self)].

(** The call that creates the engine's index. *)
Definition create_call (self : Engine) : Call :=
  CreateIndex (index_name self) (embedding_dimension self)
    "cosine" "aws" "us-east-1".

(** A call that costs an embedding or writes to the store. *)
Definition indexing_work (c : Call) : bool :=
  is_embedding_call c || is_upsert_call c.

(** The calls a query may make. *)
Definition query_call (c : Call) : bool :=
  match c with
  | EmbeddingsCreate _ _ | QueryIndex _ _ _ _ | ChatCompletionsCreate _ _ _ _ =>
      true
  | _ => false
  end.

(** An environment variable that [if not value] rejects: unset or empty. *)
Definition unset_or_empty (value : option string) : Prop :=
  value = None \/ value = Some "".

(** ** Facts about the built-ins *)

Section py_facts.

Import Py.

Lemma append_cons (c : ascii) (s t : string) :
  String c s +:+ t = String c (s +:+ t).
Proof. reflexivity. Qed.

Lemma append_nil_l (s : string) : "" +:+ s = s.
Proof. reflexivity. Qed.

Lemma append_nil_r (s : string) : s +:+ "" = s.
Proof.
  induction s as [|c s IH]; [reflexivity |].
  now rewrite append_cons, IH.
Qed.

Lemma append_assoc (s t u : string) : (s +:+ t) +:+ u = s +:+ (t +:+ u).
Proof.
  induction s as [|c s IH]; [reflexivity |].
  now rewrite !append_cons, IH.
Qed.

Lemma no_space_app (s t : string) :
  no_space (s +:+ t) = no_space s && no_space t.
Proof.
  induction s as [|c s IH]; [reflexivity |].
  rewrite append_cons. simpl. rewrite IH. now rewrite andb_assoc.
Qed.

Lemma truthy_app_r (s t : string) : truthy t = true -> truthy (s +:+ t) = true.
Proof. destruct s; [now rewrite append_nil_l | reflexivity]. Qed.

Lemma truthy_app_l (s t : string) : truthy s = true -> truthy (s +:+ t) = true.
Proof. destruct s; [discriminate | reflexivity]. Qed.

Lemma split_go_word (w cur s : string) :
  no_space w = true -> split_go cur (w +:+ s) = split_go (cur +:+ w) s.
Proof.
  revert cur. induction w as [|c w IH]; intros cur Hw.
  - now rewrite append_nil_r, append_nil_l.
  - simpl in Hw. apply andb_prop in Hw as [Hc Hw].
    rewrite append_cons. simpl.
    destruct (isspace c); [discriminate |].
    rewrite IH by assumption. now rewrite append_assoc.
Qed.

Lemma flush_words (cur : string) :
  no_space cur = true -> Forall word (flush cur).
Proof.
  intros Hcur. unfold flush.
  destruct (truthy cur) eqn:E; constructor; [split |]; auto.
Qed.

Lemma split_go_words (cur s : string) :
  no_space cur = true -> Forall word (split_go cur s).
Proof.
  revert cur. induction s as [|c s IH]; intros cur Hcur; simpl.
  - now apply flush_words.
  - destruct (isspace c) eqn:Ec.
    + apply Forall_app. split; [now apply flush_words | now apply IH].
    + apply IH. rewrite no_space_app, Hcur. simpl. now rewrite Ec.
Qed.

Lemma split_words (text : string) : Forall word (split text).
Proof. now apply split_go_words. Qed.

Lemma join_cons (sep w : string) (ws : list string) :
  ws <> [] -> join sep (w :: ws) = w +:+ sep +:+ join sep ws.
Proof. destruct ws; [congruence | reflexivity]. Qed.

Lemma join_truthy (ws : list string) :
  Forall word ws -> ws <> [] -> truthy (join " " ws) = true.
Proof.
  intros Hws Hne. destruct ws as [|w ws]; [congruence |].
  apply Forall_cons in Hws as [[Hw _] _].
  destruct ws; [exact Hw |].
  rewrite join_cons by discriminate. now apply truthy_app_l.
Qed.

(** Splitting undoes joining with one space. *)
Lemma split_join (ws : list string) :
  Forall word ws -> split (join " " ws) = ws.
Proof.
  unfold split. induction ws as [|w ws IH]; intros Hws; [reflexivity |].
  apply Forall_cons in Hws as [[Hw1 Hw2] Hws].
  destruct ws as [|w' ws].
  - change (join " " [w]) with w. rewrite <- (append_nil_r w) at 1.
    rewrite split_go_word by assumption. rewrite append_nil_l. simpl.
    unfold flush. now rewrite Hw1.
  - rewrite join_cons by discriminate.
    rewrite split_go_word by assumption. rewrite append_nil_l.
    change (" " +:+ join " " (w' :: ws))
      with (String " "%char (join " " (w' :: ws))).
    simpl split_go. unfold flush. rewrite Hw1. simpl. f_equal. now apply IH.
Qed.

Lemma lstrip_word_app (w s : string) : word w -> lstrip (w +:+ s) = w +:+ s.
Proof.
  intros [Hw1 Hw2]. destruct w as [|c w]; [discriminate |].
  rewrite append_cons. simpl in *. apply andb_prop in Hw2 as [Hc _].
  now destruct (isspace c).
Qed.

Lemma rstrip_word (w : string) : no_space w = true -> rstrip w = w.
Proof.
  induction w as [|c w IH]; intros Hw; [reflexivity |].
  simpl in *. apply andb_prop in Hw as [Hc Hw].
  rewrite IH by assumption.
  destruct w; [| reflexivity]. now destruct (isspace c).
Qed.

Lemma rstrip_app (s t : string) :
  rstrip t = t -> truthy t = true -> rstrip (s +:+ t) = s +:+ t.
Proof.
  intros Ht Hne. induction s as [|c s IH]; [exact Ht |].
  rewrite append_cons. simpl. rewrite IH.
  pose proof (truthy_app_r s t Hne) as H.
  now destruct (s +:+ t).
Qed.

Lemma rstrip_join (ws : list string) :
  Forall word ws -> rstrip (join " " ws) = join " " ws.
Proof.
  induction ws as [|w ws IH]; intros Hws; [reflexivity |].
  apply Forall_cons in Hws as [[Hw1 Hw2] Hws].
  destruct ws as [|w' ws]; [now apply rstrip_word |].
  rewrite join_cons by discriminate.
  rewrite <- append_assoc. apply rstrip_app; [now apply IH |].
  apply join_truthy; [assumption | discriminate].
Qed.

(** A joined group of words is already stripped. *)
Lemma strip_join (ws : list string) :
  Forall word ws -> strip (join " " ws) = join " " ws.
Proof.
  intros Hws. unfold strip.
  destruct ws as [|w ws]; [reflexivity |].
  assert (Hl : lstrip (join " " (w :: ws)) = join " " (w :: ws)).
  { pose proof Hws as Hws'. apply Forall_cons in Hws' as [Hw _].
    destruct ws.
    - change (join " " [w]) with w. rewrite <- (append_nil_r w).
      now apply lstrip_word_app.
    - rewrite join_cons by discriminate. now apply lstrip_word_app. }
  rewrite Hl. now apply rstrip_join.
Qed.

End py_facts.

(** ** Fixed-size windows over a list *)

Section windows.

Context {A : Type}.
Implicit Types (xs : list A) (k : nat).
Lemma ceil_div_spec (n k : nat) :
  0 < k -> n <= ceil_div n k * k /\ ceil_div n k * k < n + k.
Proof.
  intros Hk. unfold ceil_div.
  pose proof (Nat.div_mod_eq (n + k - 1) k) as E.
  pose proof (Nat.mod_upper_bound (n + k - 1) k ltac:(lia)) as U.
  nia.
Qed.

Lemma slice_window xs i k : Py.slice xs i (i + k) = take k (drop i xs).
Proof. unfold Py.slice. f_equal. lia. Qed.

Lemma windows_length xs k : length (windows xs k) = ceil_div (length xs) k.
Proof. unfold windows, Py.range0. now rewrite !length_fmap, length_seq. Qed.

Lemma windows_lookup xs k j :
  0 < k ->
  j < ceil_div (length xs) k ->
  windows xs k !! j = Some (take k (drop (j * k) xs)) /\ j * k < length xs.
Proof.
  intros Hk Hj. split.
  - unfold windows, Py.range0. rewrite !list_lookup_fmap.
    rewrite lookup_seq_lt by exact Hj. simpl. now rewrite slice_window.
  - pose proof (ceil_div_spec (length xs) k Hk). nia.
Qed.

Lemma windows_lookup_inv xs k j w :
  0 < k ->
  windows xs k !! j = Some w ->
  w = take k (drop (j * k) xs) /\ j * k < length xs.
Proof.
  intros Hk Hw.
  assert (Hj : j < ceil_div (length xs) k).
  { rewrite <- windows_length. eapply lookup_lt_Some, Hw. }
  destruct (windows_lookup xs k j Hk Hj) as [E Hlt].
  rewrite E in Hw. split; congruence.
Qed.

Lemma windows_prefix xs k c :
  concat ((fun i => Py.slice xs i (i + k)) <$> ((fun j => j * k) <$> seq 0 c))
  = take (c * k) xs.
Proof.
  induction c as [|c IH]; [reflexivity |].
  rewrite seq_S, !fmap_app, concat_app, IH. simpl.
  rewrite app_nil_r, slice_window, take_take_drop. f_equal. lia.
Qed.

(** The windows partition the list, in order. *)
Lemma windows_concat xs k : 0 < k -> concat (windows xs k) = xs.
Proof.
  intros Hk. unfold windows, Py.range0. rewrite windows_prefix.
  apply take_ge. apply (ceil_div_spec (length xs) k Hk).
Qed.

(** No window is empty and none is longer than [k]. *)
Lemma windows_bound xs k w :
  0 < k -> w ∈ windows xs k -> 0 < length w <= k.
Proof.
  intros Hk [j Hj]%list_elem_of_lookup.
  apply windows_lookup_inv in Hj as [-> Hlt]; [| exact Hk].
  rewrite length_take, length_drop. lia.
Qed.

(** Every window but the last one is full. *)
Lemma windows_full xs k j w :
  0 < k ->
  windows xs k !! j = Some w -> j + 1 < length (windows xs k) ->
  length w = k.
Proof.
  intros Hk Hj Hlast.
  apply windows_lookup_inv in Hj as [-> Hlt]; [| exact Hk].
  rewrite windows_length in Hlast.
  pose proof (ceil_div_spec (length xs) k Hk).
  rewrite length_take, length_drop. nia.
Qed.

Lemma windows_nonempty xs k : 0 < k -> xs <> [] -> windows xs k <> [].
Proof.
  intros Hk Hxs Hw. apply (f_equal length) in Hw.
  rewrite windows_length in Hw. simpl in Hw.
  pose proof (ceil_div_spec (length xs) k Hk).
  destruct xs; [congruence | simpl in *; lia].
Qed.

Lemma windows_Forall (P : A -> Prop) xs k :
  0 < k -> Forall P xs -> Forall (Forall P) (windows xs k).
Proof.
  intros Hk Hxs. apply Forall_lookup. intros j w Hj.
  apply windows_lookup_inv in Hj as [-> _]; [| exact Hk].
  now apply Forall_take, Forall_drop.
Qed.

End windows.

(** ** The chunker, characterised *)

Section chunker_facts.

Import Py.

Lemma split_go_nil (cur s : string) :
  split_go cur s = [] <-> truthy cur = false /\ blank s = true.
Proof.
  revert cur. induction s as [|c s IH]; intros cur; simpl.
  - unfold flush. destruct (truthy cur); split; intros H;
      try discriminate; intuition congruence.
  - destruct (isspace c) eqn:Ec; simpl.
    + split.
      * intros [Hf Hs]%app_eq_nil. apply IH in Hs as [_ Hs].
        unfold flush in Hf. destruct (truthy cur); [discriminate | auto].
      * intros [Hcur Hs]. unfold flush. rewrite Hcur. simpl.
        apply IH. auto.
    + rewrite IH. split; [| intros [_ ?]; discriminate].
      intros [Hcur _]. rewrite truthy_app_r in Hcur; [discriminate | reflexivity].
Qed.

(** [split] finds no word exactly in blank texts. *)
Lemma split_nil (text : string) : split text = [] <-> blank text = true.
Proof. unfold split. rewrite split_go_nil. simpl. intuition. Qed.

Lemma chunk_step_window (words : list string) (k i : nat) (chunks : list string) :
  0 < k -> Forall word words -> i < length words ->
  chunk_step words k chunks i
  = chunks ++ [join " " (slice words i (i + k))].
Proof.
  intros Hk Hwords Hi. unfold chunk_step.
  rewrite slice_window.
  assert (Hw : Forall word (take k (drop i words)))
    by now apply Forall_take, Forall_drop.
  rewrite strip_join by exact Hw.
  rewrite join_truthy; [reflexivity | exact Hw |].
  intros E. apply (f_equal length) in E.
  rewrite length_take, length_drop in E. simpl in E. lia.
Qed.

Lemma chunk_loop (words : list string) (k : nat) (idxs : list nat)
    (chunks : list string) :
  0 < k -> Forall word words -> Forall (fun i => i < length words) idxs ->
  foldl (chunk_step words k) chunks idxs
  = chunks ++ ((fun i => join " " (slice words i (i + k))) <$> idxs).
Proof.
  intros Hk Hwords. revert chunks.
  induction idxs as [|i idxs IH]; intros chunks Hidx; simpl.
  - now rewrite app_nil_r.
  - apply Forall_cons in Hidx as [Hi Hidx].
    rewrite chunk_step_window by assumption.
    rewrite IH by assumption. now rewrite <- app_assoc.
Qed.

Lemma range0_in_bounds (n k : nat) :
  0 < k -> Forall (fun i => i < n) (range0 n k).
Proof.
  intros Hk. apply Forall_lookup. intros j i Hj.
  unfold range0 in Hj. rewrite list_lookup_fmap in Hj.
  destruct (seq 0 ((n + k - 1) / k) !! j) as [j'|] eqn:E; [| discriminate].
  apply lookup_seq in E as [-> Hlt]. simpl in Hj. injection Hj as <-.
  pose proof (ceil_div_spec n k Hk) as Hc. unfold ceil_div in Hc. nia.
Qed.

(** For a positive size the chunker joins each window of words. *)
Lemma chunk_text_windows (text : string) (p : positive) :
  chunk_text text (Z.pos p)
  = Ok (join " " <$> windows (split text) (Pos.to_nat p)).
Proof.
  unfold chunk_text. f_equal.
  rewrite chunk_loop; [| lia | apply split_words | apply range0_in_bounds; lia].
  simpl. unfold windows. now rewrite <- list_fmap_compose.
Qed.

Lemma split_chunks (words : list string) (k : nat) :
  0 < k -> Forall word words ->
  split <$> (join " " <$> windows words k) = windows words k.
Proof.
  intros Hk Hwords.
  rewrite <- list_fmap_compose.
  rewrite <- (list_fmap_id (windows words k)) at 2.
  apply Forall_fmap_ext_1.
  eapply Forall_impl; [apply windows_Forall; eassumption |].
  intros w Hw. simpl. now apply split_join.
Qed.

End chunker_facts.

(** ** Properties of the chunker *)

Section chunker_claims.

Import Py.

Lemma chunk_text_carries_words (text : string) (p : positive) :
  carries_words text (Z.pos p)
    (join " " <$> windows (split text) (Pos.to_nat p)).
Proof.
  assert (Hk : 0 < Pos.to_nat p) by lia.
  pose proof (split_words text) as Hw.
  split.
  - rewrite split_chunks by assumption. now apply windows_concat.
  - apply Forall_fmap, Forall_forall. intros w Hin. simpl.
    rewrite split_join.
    + apply windows_bound in Hin; lia.
    + pose proof (windows_Forall word (split text) _ Hk Hw) as HF.
      rewrite Forall_forall in HF. now apply HF.
Qed.

(** C1, as amended: for every text and positive chunk_size, chunk_text
    returns segments whose white-space splits, concatenated, are exactly the
    word sequence of the text, none with more than chunk_size words; the
    sequence of segments is non-empty as soon as the text has a character
    that is not white space. *)
Theorem chunk_text_partitions (text : string) (chunk_size : Z) :
  (0 < chunk_size)%Z ->
  exists chunks,
    chunk_text text chunk_size = Ok chunks
    /\ carries_words text chunk_size chunks
    /\ (blank text = false -> chunks <> []).
Proof.
  intros Hpos. destruct chunk_size as [|p|p]; try lia.
  exists (join " " <$> windows (split text) (Pos.to_nat p)).
  split; [apply chunk_text_windows |].
  split; [apply chunk_text_carries_words |].
  intros Hblank Hnil. apply fmap_nil_inv in Hnil.
  apply (windows_nonempty (split text) (Pos.to_nat p)); [lia | | exact Hnil].
  intros Hsplit. apply split_nil in Hsplit. congruence.
Qed.

(** C10: when the text has at least one word and chunk_size is positive,
    every segment but the last has exactly chunk_size words, and the number
    of segments is the ceiling of the word count divided by chunk_size. *)
Theorem chunk_text_full_segments (text : string) (chunk_size : Z) :
  split text <> [] -> (0 < chunk_size)%Z ->
  exists chunks,
    chunk_text text chunk_size = Ok chunks
    /\ (forall j c, chunks !! j = Some c -> j + 1 < length chunks ->
          Z.of_nat (length (split c)) = chunk_size)
    /\ Z.of_nat (length chunks)
       = ((Z.of_nat (length (split text)) + chunk_size - 1) / chunk_size)%Z
    /\ ((Z.of_nat (length chunks) - 1) * chunk_size
          < Z.of_nat (length (split text))
          <= Z.of_nat (length chunks) * chunk_size)%Z.
Proof.
  intros Hne Hpos. destruct chunk_size as [|p|p]; try lia.
  set (k := Pos.to_nat p). assert (Hk : 0 < k) by (unfold k; lia).
  pose proof (split_words text) as Hw.
  exists (join " " <$> windows (split text) k).
  assert (Hlen : length (join " " <$> windows (split text) k)
                 = ceil_div (length (split text)) k)
    by now rewrite length_fmap, windows_length.
  pose proof (ceil_div_spec (length (split text)) k Hk) as [Hlo Hhi].
  assert (Hn : 0 < length (split text))
    by (destruct (split text); [congruence | simpl; lia]).
  split; [apply chunk_text_windows |].
  split; [| split].
  - intros j c Hj Hlast.
    rewrite list_lookup_fmap in Hj.
    destruct (windows (split text) k !! j) as [w|] eqn:Ew; [| discriminate].
    injection Hj as <-.
    rewrite length_fmap in Hlast.
    rewrite split_join.
    + rewrite (windows_full _ _ _ _ Hk Ew Hlast). unfold k. lia.
    + pose proof (windows_Forall word (split text) _ Hk Hw) as HF.
      rewrite Forall_lookup in HF. eapply HF, Ew.
  - rewrite Hlen. unfold ceil_div.
    rewrite Nat2Z.inj_div.
    replace (Z.of_nat (length (split text) + k - 1))
      with (Z.of_nat (length (split text)) + Z.pos p - 1)%Z by (unfold k; lia).
    f_equal. unfold k. lia.
  - rewrite Hlen. unfold k in *. nia.
Qed.

(** C7: chunk_text is deterministic: identical inputs give identical
    outcomes, be it a sequence of segments or an exception. *)
Theorem chunk_text_deterministic (text1 text2 : string) (size1 size2 : Z) :
  text1 = text2 -> size1 = size2 ->
  chunk_text text1 size1 = chunk_text text2 size2.
Proof. intros -> ->. reflexivity. Qed.

End chunker_claims.

(** ** Calls and the trace *)

Section call_facts.

Lemma log_nil (w : World) : log [] w = w.
Proof. destruct w. unfold log. simpl. now rewrite app_nil_r. Qed.

Lemma log_log (cs1 cs2 : list Call) (w : World) :
  log cs2 (log cs1 w) = log (cs1 ++ cs2) w.
Proof. unfold log. simpl. now rewrite app_assoc. Qed.

Lemma call_ok (c : Call) (w : World) :
  fault providers (length (trace w)) = false ->
  call c w = (Ok tt, log [c] w).
Proof. intros H. unfold call. now rewrite H. Qed.

Lemma call_fault (c : Call) (w : World) :
  fault providers (length (trace w)) = true ->
  call c w = (Raise (ProviderError (length (trace w))), log [c] w).
Proof. intros H. unfold call. now rewrite H. Qed.

End call_facts.

(** ** Start-up *)

Section initialize_claims.

(** C2: when the index of the engine already holds records, so that
    describe reports a count above zero, initialize makes no embedding call
    and no upsert call, whatever the providers do, and the records of every
    index stay as they were; when none of its calls fails it returns
    normally after exactly three calls: list, connect and describe. *)
Theorem initialize_populated_skips_indexing (self : Engine) (w : World)
    (recs : gmap string Vector) :
  pinecone w !! index_name self = Some recs ->
  0 < size recs ->
  let '(r, self1, w1) := initialize self w in
  pinecone w1 = pinecone w
  /\ (exists calls,
        trace w1 = trace w ++ calls
        /\ Forall (fun c => is_embedding_call c = false
                            /\ is_upsert_call c = false) calls)
  /\ (no_fault (length (trace w)) 3 ->
      r = Ok tt
      /\ index self1 = Some (index_name self)
      /\ trace w1
         = trace w ++ [ListIndexes; ConnectIndex (index_name self);
                       DescribeIndexStats (index_name self)]).
Proof.
  intros Hrecs Hsize.
  assert (Hin : index_name self ∈ elements (dom (pinecone w))).
  { apply elem_of_elements, elem_of_dom. eauto. }
  unfold initialize, pc_list_indexes, pc_Index, index_describe_index_stats,
    the_index, records_of, bind, get, ret, call. simpl.
  destruct (fault providers (length (trace w))) eqn:F0; simpl.
  { split; [reflexivity |]. split.
    - eexists. split; [reflexivity |]. repeat constructor.
    - intros Hnf. specialize (Hnf 0 ltac:(lia)).
      rewrite Nat.add_0_r in Hnf. congruence. }
  rewrite (bool_decide_eq_true_2 _ Hin). simpl.
  rewrite length_app. simpl.
  destruct (fault providers (length (trace w) + 1)) eqn:F1; simpl.
  { split; [reflexivity |]. split.
    - eexists. rewrite <- app_assoc. split; [reflexivity |]. repeat constructor.
    - intros Hnf. specialize (Hnf 1 ltac:(lia)). congruence. }
  rewrite !length_app. simpl.
  destruct (fault providers (length (trace w) + 1 + 1)) eqn:F2; simpl.
  { split; [reflexivity |]. split.
    - eexists. rewrite <- !app_assoc. split; [reflexivity |]. repeat constructor.
    - intros Hnf. specialize (Hnf 2 ltac:(lia)).
      replace (length (trace w) + 2) with (length (trace w) + 1 + 1) in Hnf by lia.
      congruence. }
  rewrite Hrecs. simpl.
  destruct (size recs) as [|n] eqn:En; [lia |]. simpl.
  split; [reflexivity |]. split.
  - eexists. rewrite <- !app_assoc. split; [reflexivity |]. repeat constructor.
  - intros _. rewrite <- !app_assoc. repeat split.
Qed.

End initialize_claims.

(** ** The indexing loop *)

Section indexing_facts.

Variable self : Engine.
Variable handle : string.
Hypothesis self_index : index self = Some handle.

Lemma no_fault_weaken (from count count' : nat) :
  count' <= count -> no_fault from count -> no_fault from count'.
Proof. intros Hle H i Hi. apply H. lia. Qed.

Lemma no_fault_shift (from count d : nat) :
  no_fault from (d + count) -> no_fault (from + d) count.
Proof.
  intros H i Hi. replace (from + d + i) with (from + (d + i)) by lia.
  apply H. lia.
Qed.

Lemma read_documents_cons (filename content : string)
    (listing : list (string * string)) (documents : list Document) :
  read_documents ((filename, content) :: listing) documents
  = if Py.endswith filename ".txt" || Py.endswith filename ".md" then
      match chunk_text content default_chunk_size with
      | Ok chunks =>
          read_documents listing (documents ++ file_documents filename chunks)
      | Raise e => Raise e
      end
    else read_documents listing documents.
Proof. reflexivity. Qed.

Lemma documents_of_cons (filename content : string)
    (listing : list (string * string)) :
  documents_of ((filename, content) :: listing)
  = (if Py.endswith filename ".txt" || Py.endswith filename ".md"
     then file_documents filename (default_chunks content) else [])
    ++ documents_of listing.
Proof. reflexivity. Qed.

(** Reading the data directory never raises. *)
Lemma read_documents_total (listing : list (string * string))
    (documents : list Document) :
  read_documents listing documents = Ok (documents ++ documents_of listing).
Proof.
  revert documents. induction listing as [|[filename content] listing IH];
    intros documents.
  - simpl. now rewrite app_nil_r.
  - rewrite read_documents_cons, documents_of_cons.
    destruct (Py.endswith filename ".txt" || Py.endswith filename ".md").
    + unfold default_chunk_size. rewrite chunk_text_windows.
      rewrite IH. now rewrite <- app_assoc.
    + now rewrite IH.
Qed.

Lemma for_each_fmap {A B : Type} (f : A -> B) (xs : list A)
    (body : B -> M unit) (w : World) :
  for_each (f <$> xs) body w = for_each xs (fun x => body (f x)) w.
Proof.
  revert w. induction xs as [|x xs IH]; intros w; [reflexivity |].
  simpl. unfold bind. destruct (body (f x) w) as [[[]|e] w1]; auto.
Qed.

(** The embeddings of a batch when the provider answers each call. *)
Lemma collect_embed_ok (batch : list Document) (w : World) :
  no_fault (length (trace w)) (length batch) ->
  collect (embed_document self) batch w
  = (Ok (vector_of self <$> batch), log (embedding_calls self batch) w).
Proof.
  revert w. induction batch as [|doc batch IH]; intros w Hnf.
  - simpl. unfold ret. now rewrite log_nil.
  - simpl. unfold bind at 1. unfold embed_document at 1.
    unfold get_embedding, embeddings_create, bind at 1 2.
    rewrite call_ok
      by (specialize (Hnf 0 ltac:(simpl; lia)); now rewrite Nat.add_0_r in Hnf).
    unfold ret at 1 2. unfold bind.
    rewrite IH.
    + unfold ret. rewrite log_log. reflexivity.
    + simpl. rewrite length_app. simpl.
      apply no_fault_shift. exact Hnf.
Qed.

(** The embeddings of a batch when call [j] of the batch is the first to fail. *)
Lemma collect_embed_fault (batch : list Document) (j : nat) (w : World) :
  j < length batch ->
  no_fault (length (trace w)) j ->
  fault providers (length (trace w) + j) = true ->
  collect (embed_document self) batch w
  = (Raise (ProviderError (length (trace w) + j)),
     log (take (S j) (embedding_calls self batch)) w).
Proof.
  revert j w. induction batch as [|doc batch IH]; intros j w Hj Hnf Hf.
  - simpl in Hj. lia.
  - simpl. unfold bind at 1. unfold embed_document at 1.
    unfold get_embedding, embeddings_create, bind at 1 2.
    destruct j as [|j].
    + rewrite Nat.add_0_r in Hf. rewrite call_fault by exact Hf.
      rewrite Nat.add_0_r. reflexivity.
    + rewrite call_ok
        by (specialize (Hnf 0 ltac:(lia)); now rewrite Nat.add_0_r in Hnf).
      unfold ret at 1 2. unfold bind.
      rewrite (IH j).
      * rewrite log_log. simpl. rewrite length_app. simpl.
        do 3 f_equal. lia.
      * simpl in Hj. lia.
      * simpl. rewrite length_app. simpl.
        apply no_fault_shift. exact Hnf.
      * simpl. rewrite length_app. simpl.
        replace (length (trace w) + 1 + j) with (length (trace w) + S j) by lia.
        exact Hf.
Qed.

Lemma embedding_calls_length (batch : list Document) :
  length (embedding_calls self batch) = length batch.
Proof. unfold embedding_calls. now rewrite length_fmap. Qed.

Lemma batch_calls_length (batch : list Document) :
  length (batch_calls self handle batch) = S (length batch).
Proof.
  unfold batch_calls. rewrite length_app, embedding_calls_length. simpl. lia.
Qed.

(** A batch that meets no failure is embedded and upserted. *)
Lemma index_batch_ok (batch : list Document) (w : World)
    (recs : gmap string Vector) :
  pinecone w !! handle = Some recs ->
  no_fault (length (trace w)) (S (length batch)) ->
  index_batch self batch w
  = (Ok tt,
     world_after w handle (upsert_records recs (vector_of self <$> batch))
       (batch_calls self handle batch)).
Proof.
  intros Hrecs Hnf. unfold index_batch, bind at 1.
  rewrite collect_embed_ok by (eapply no_fault_weaken; [| exact Hnf]; lia).
  unfold the_index. rewrite self_index. unfold bind at 1, ret at 1.
  unfold index_upsert, bind at 1.
  rewrite call_ok.
  - unfold bind, records_of. simpl. rewrite Hrecs.
    unfold world_after, batch_calls. simpl. now rewrite app_assoc.
  - simpl. rewrite length_app, embedding_calls_length.
    apply Hnf. lia.
Qed.

(** A batch whose call [j] is the first to fail stops there; the records of
    the index are untouched. *)
Lemma index_batch_fault (batch : list Document) (j : nat) (w : World) :
  j <= length batch ->
  no_fault (length (trace w)) j ->
  fault providers (length (trace w) + j) = true ->
  index_batch self batch w
  = (Raise (ProviderError (length (trace w) + j)),
     log (take (S j) (batch_calls self handle batch)) w).
Proof.
  intros Hj Hnf Hf. unfold index_batch, bind at 1.
  destruct (decide (j < length batch)) as [Hlt|Hge].
  - rewrite (collect_embed_fault batch j) by assumption.
    unfold batch_calls. rewrite take_app_le; [reflexivity |].
    rewrite embedding_calls_length. lia.
  - assert (j = length batch) as -> by lia.
    rewrite collect_embed_ok by exact Hnf.
    unfold the_index. rewrite self_index. unfold bind at 1, ret at 1.
    unfold index_upsert, bind at 1.
    rewrite call_fault.
    + simpl. rewrite length_app, embedding_calls_length. rewrite log_log.
      unfold batch_calls. rewrite take_ge; [reflexivity |].
      rewrite length_app, embedding_calls_length. simpl. lia.
    + simpl. rewrite length_app, embedding_calls_length. exact Hf.
Qed.

Lemma calls_of_cons (b : list Document) (batches : list (list Document)) :
  calls_of self handle (b :: batches)
  = batch_calls self handle b ++ calls_of self handle batches.
Proof. reflexivity. Qed.

Lemma world_after_after (w : World) (recs1 recs2 : gmap string Vector)
    (cs1 cs2 : list Call) :
  world_after (world_after w handle recs1 cs1) handle recs2 cs2
  = world_after w handle recs2 (cs1 ++ cs2).
Proof.
  unfold world_after. simpl. rewrite insert_insert_eq. now rewrite app_assoc.
Qed.

Lemma world_after_same (w : World) (recs : gmap string Vector)
    (cs : list Call) :
  pinecone w !! handle = Some recs ->
  world_after w handle recs cs = log cs w.
Proof.
  intros H. unfold world_after, log. now rewrite insert_id.
Qed.

(** All batches go through when no call fails. *)
Lemma index_batches_ok (batches : list (list Document)) (w : World)
    (recs : gmap string Vector) :
  pinecone w !! handle = Some recs ->
  no_fault (length (trace w)) (length (calls_of self handle batches)) ->
  for_each batches (index_batch self) w
  = (Ok tt,
     world_after w handle (upsert_batches self recs batches)
       (calls_of self handle batches)).
Proof.
  revert w recs. induction batches as [|batch batches IH]; intros w recs Hrecs Hnf.
  - simpl. unfold ret. rewrite world_after_same by exact Hrecs.
    now rewrite log_nil.
  - unfold calls_of in Hnf. simpl in Hnf. rewrite length_app in Hnf.
    fold (calls_of self handle batches) in Hnf.
    simpl. unfold bind.
    rewrite (index_batch_ok batch w recs Hrecs).
    + rewrite (IH _ (upsert_records recs (vector_of self <$> batch))).
      * now rewrite world_after_after.
      * simpl. apply lookup_insert_eq.
      * simpl. rewrite length_app. apply no_fault_shift. exact Hnf.
    + rewrite <- batch_calls_length.
      eapply no_fault_weaken; [| exact Hnf]. lia.
Qed.

(** When call [j] of batch [n] is the first to fail, the batches before [n]
    are upserted, the calls stop at the failing one, and the exception
    leaves the loop. *)
Lemma index_batches_fault (batches : list (list Document)) (n j : nat)
    (batch : list Document) (w : World) (recs : gmap string Vector) :
  pinecone w !! handle = Some recs ->
  batches !! n = Some batch ->
  j <= length batch ->
  no_fault (length (trace w))
    (length (calls_of self handle (take n batches)) + j) ->
  fault providers
    (length (trace w) + length (calls_of self handle (take n batches)) + j)
    = true ->
  for_each batches (index_batch self) w
  = (Raise (ProviderError
              (length (trace w)
               + length (calls_of self handle (take n batches)) + j)),
     world_after w handle (upsert_batches self recs (take n batches))
       (calls_of self handle (take n batches)
        ++ take (S j) (batch_calls self handle batch))).
Proof.
  revert batches w recs.
  induction n as [|n IH]; intros batches w recs Hrecs Hn Hj Hnf Hf.
  - destruct batches as [|b batches]; [discriminate |].
    injection Hn as ->. simpl in *. unfold bind.
    rewrite Nat.add_0_r in Hf.
    rewrite (index_batch_fault batch j) by assumption.
    rewrite world_after_same by exact Hrecs.
    rewrite Nat.add_0_r. reflexivity.
  - destruct batches as [|b batches]; [discriminate |].
    change ((b :: batches) !! S n) with (batches !! n) in Hn.
    change (take (S n) (b :: batches)) with (b :: take n batches) in *.
    rewrite calls_of_cons in *. rewrite length_app in *.
    cbn [for_each]. unfold bind.
    assert (Hw1 : length (trace (world_after w handle
                    (upsert_records recs (vector_of self <$> b))
                    (batch_calls self handle b)))
                  = length (trace w) + length (batch_calls self handle b)).
    { cbn [trace world_after]. now rewrite length_app. }
    rewrite (index_batch_ok b w recs Hrecs).
    + rewrite (IH batches _ (upsert_records recs (vector_of self <$> b)));
        try assumption.
      * rewrite world_after_after, Hw1.
        f_equal; [do 2 f_equal; lia |].
        change (upsert_batches self recs (b :: take n batches))
          with (upsert_batches self
                  (upsert_records recs (vector_of self <$> b)) (take n batches)).
        now rewrite app_assoc.
      * cbn [pinecone world_after]. apply lookup_insert_eq.
      * rewrite Hw1. apply no_fault_shift.
        eapply no_fault_weaken; [| exact Hnf]. lia.
      * rewrite Hw1. rewrite <- Hf. f_equal. lia.
    + rewrite <- batch_calls_length.
      eapply no_fault_weaken; [| exact Hnf]. lia.
Qed.

(** [index_documents] runs the batch loop over the windows of the documents. *)
Lemma index_documents_loop (w : World) :
  index_documents self w
  = for_each (windows (documents_of (files w)) batch_size) (index_batch self) w.
Proof.
  unfold index_documents, bind, get, lift.
  rewrite read_documents_total. simpl.
  unfold windows. now rewrite for_each_fmap.
Qed.

Lemma calls_of_length (batches : list (list Document)) :
  length (calls_of self handle batches)
  = length (concat batches) + length batches.
Proof.
  induction batches as [|b batches IH]; [reflexivity |].
  rewrite calls_of_cons, length_app, batch_calls_length, IH.
  simpl. rewrite length_app. lia.
Qed.

Lemma upserted_ids_app (cs1 cs2 : list Call) :
  upserted_ids (cs1 ++ cs2) = upserted_ids cs1 ++ upserted_ids cs2.
Proof. unfold upserted_ids. apply bind_app. Qed.

Lemma upserted_ids_embeddings (batch : list Document) :
  upserted_ids (embedding_calls self batch) = [].
Proof. induction batch as [|doc batch IH]; [reflexivity | exact IH]. Qed.

Lemma upserted_ids_batch (batch : list Document) :
  upserted_ids (batch_calls self handle batch) = doc_id <$> batch.
Proof.
  unfold batch_calls. rewrite upserted_ids_app, upserted_ids_embeddings.
  simpl. rewrite app_nil_r. rewrite <- list_fmap_compose. reflexivity.
Qed.

(** A run without failure upserts the ids of the documents, in order. *)
Lemma upserted_ids_calls (batches : list (list Document)) :
  upserted_ids (calls_of self handle batches) = doc_id <$> concat batches.
Proof.
  induction batches as [|b batches IH]; [reflexivity |].
  rewrite calls_of_cons, upserted_ids_app, upserted_ids_batch, IH.
  simpl. now rewrite fmap_app.
Qed.

(** A whole indexing run when no call fails. *)
Lemma index_documents_ok (w : World) (recs : gmap string Vector) :
  let batches := windows (documents_of (files w)) batch_size in
  pinecone w !! handle = Some recs ->
  no_fault (length (trace w))
    (length (documents_of (files w)) + length batches) ->
  index_documents self w
  = (Ok tt,
     world_after w handle (upsert_batches self recs batches)
       (calls_of self handle batches)).
Proof.
  intros batches Hrecs Hnf. rewrite index_documents_loop.
  apply index_batches_ok; [exact Hrecs |].
  rewrite calls_of_length. unfold batches at 1.
  rewrite windows_concat by (unfold batch_size; lia). exact Hnf.
Qed.


End indexing_facts.

(** ** Upserts *)

Section upsert_facts.

Lemma upsert_records_snoc (recs : gmap string Vector) (vs : list Vector)
    (v : Vector) :
  upsert_records recs (vs ++ [v]) = <[vec_id v := v]> (upsert_records recs vs).
Proof. unfold upsert_records. now rewrite foldl_app. Qed.

Lemma holds_id_insert (recs : gmap string Vector) (v : Vector) (k : string) :
  holds_id recs k -> holds_id (<[vec_id v := v]> recs) k.
Proof.
  intros (v0 & Hv0 & Hid). destruct (decide (vec_id v = k)) as [E|E].
  - exists v. split; [| exact E]. rewrite <- E. apply lookup_insert_eq.
  - exists v0. split; [| exact Hid]. now rewrite lookup_insert_ne.
Qed.

Lemma holds_id_upsert_keeps (recs : gmap string Vector) (vs : list Vector)
    (k : string) :
  holds_id recs k -> holds_id (upsert_records recs vs) k.
Proof.
  revert recs. induction vs as [|v vs IH]; intros recs H; [exact H |].
  simpl. apply IH. now apply holds_id_insert.
Qed.

Lemma holds_id_upsert_new (recs : gmap string Vector) (vs : list Vector)
    (v : Vector) :
  v ∈ vs -> holds_id (upsert_records recs vs) (vec_id v).
Proof.
  revert recs. induction vs as [|v0 vs IH]; intros recs Hin.
  - inversion Hin.
  - simpl. apply elem_of_cons in Hin as [->|Hin].
    + apply holds_id_upsert_keeps. exists v0. split; [| reflexivity].
      apply lookup_insert_eq.
    + now apply IH.
Qed.

Lemma holds_id_upsert_batches_keeps (self : Engine) (recs : gmap string Vector)
    (batches : list (list Document)) (k : string) :
  holds_id recs k -> holds_id (upsert_batches self recs batches) k.
Proof.
  revert recs. induction batches as [|b batches IH]; intros recs H; [exact H |].
  simpl. apply IH. now apply holds_id_upsert_keeps.
Qed.

(** Every document of an upserted batch has a record under its id. *)
Lemma holds_id_upsert_batches (self : Engine) (recs : gmap string Vector)
    (batches : list (list Document)) (b : list Document) (doc : Document) :
  b ∈ batches -> doc ∈ b ->
  holds_id (upsert_batches self recs batches) (doc_id doc).
Proof.
  revert recs. induction batches as [|b0 batches IH]; intros recs Hb Hdoc.
  - inversion Hb.
  - simpl. apply elem_of_cons in Hb as [->|Hb].
    + apply holds_id_upsert_batches_keeps.
      apply (holds_id_upsert_new recs _ (vector_of self doc)).
      apply list_elem_of_fmap. eauto.
    + now apply IH.
Qed.

(** Upserting changes the ids of an index only by adding those upserted. *)
Lemma upsert_records_dom (recs : gmap string Vector) (vs : list Vector) :
  dom (upsert_records recs vs) = dom recs ∪ list_to_set (vec_id <$> vs).
Proof.
  revert recs. induction vs as [|v vs IH]; intros recs; simpl.
  - now rewrite (right_id_L ∅ (∪)).
  - rewrite IH, dom_insert_L.
    rewrite (comm_L (∪) {[vec_id v]} (dom recs)).
    now rewrite (assoc_L (∪)).
Qed.

Lemma upsert_batches_dom (self : Engine) (recs : gmap string Vector)
    (batches : list (list Document)) :
  dom (upsert_batches self recs batches)
  = dom recs ∪ list_to_set (doc_id <$> concat batches).
Proof.
  revert recs. induction batches as [|b batches IH]; intros recs; simpl.
  - now rewrite (right_id_L ∅ (∪)).
  - rewrite IH, upsert_records_dom, fmap_app, list_to_set_app_L.
    rewrite <- list_fmap_compose.
    replace (vec_id ∘ vector_of self) with doc_id by reflexivity.
    now rewrite (assoc_L (∪)).
Qed.

End upsert_facts.

(** ** Chunk ids *)

Section id_facts.

Lemma pretty_N_char_no_underscore (x : N) :
  Ascii.eqb (pretty_N_char x) "_" = false.
Proof. unfold pretty_N_char. by repeat case_match. Qed.

Lemma pretty_N_go_no_underscore (x : N) (s : string) :
  no_underscore s = true -> no_underscore (pretty_N_go x s) = true.
Proof.
  revert s. induction (N.lt_wf_0 x) as [x _ IH]; intros s Hs.
  destruct (decide (0 < x)%N) as [Hx|Hx].
  - rewrite pretty_N_go_step by exact Hx.
    apply IH; [apply N.div_lt; lia |].
    simpl. now rewrite pretty_N_char_no_underscore.
  - assert (x = 0%N) as -> by lia. now rewrite pretty_N_go_0.
Qed.

(** A decimal numeral has no underscore. *)
Lemma str_of_nat_no_underscore (i : nat) :
  no_underscore (Py.str_of_nat i) = true.
Proof.
  unfold Py.str_of_nat, pretty, pretty_nat, pretty, pretty_N.
  case_decide; [reflexivity |].
  now apply pretty_N_go_no_underscore.
Qed.

Lemma no_underscore_app_underscore (s t : string) :
  no_underscore (s +:+ "_" +:+ t) = false.
Proof.
  induction s as [|c s IH]; [reflexivity |].
  rewrite append_cons. simpl. rewrite IH. apply andb_false_r.
Qed.

(** An id determines the name and the numeral it was built from. *)
Lemma id_parts (f1 f2 d1 d2 : string) :
  no_underscore d1 = true -> no_underscore d2 = true ->
  f1 +:+ "_" +:+ d1 = f2 +:+ "_" +:+ d2 ->
  f1 = f2 /\ d1 = d2.
Proof.
  intros H1 H2. revert f2.
  induction f1 as [|c f1 IH]; intros [|c' f2] E.
  - injection E as E. now split.
  - rewrite append_nil_l, append_cons in E.
    injection E as _ E. rewrite ?append_nil_l in E.
    rewrite E, no_underscore_app_underscore in H1. discriminate.
  - rewrite append_nil_l, append_cons in E.
    injection E as _ E. rewrite ?append_nil_l in E.
    rewrite <- E, no_underscore_app_underscore in H2. discriminate.
  - rewrite !append_cons in E. injection E as -> E.
    destruct (IH f2 E) as [-> ->]. now split.
Qed.

Lemma chunk_id_inj (f1 f2 : string) (i1 i2 : nat) :
  f1 +:+ "_" +:+ Py.str_of_nat i1 = f2 +:+ "_" +:+ Py.str_of_nat i2 ->
  f1 = f2 /\ i1 = i2.
Proof.
  intros E.
  apply id_parts in E as [-> E]; try apply str_of_nat_no_underscore.
  split; [reflexivity |]. now apply (inj pretty) in E.
Qed.

Lemma file_documents_ids (filename : string) (chunks : list string) :
  doc_id <$> file_documents filename chunks
  = imap (fun i _ => filename +:+ "_" +:+ Py.str_of_nat i) chunks.
Proof. unfold file_documents. now rewrite fmap_imap. Qed.

Lemma file_documents_NoDup (filename : string) (chunks : list string) :
  NoDup (doc_id <$> file_documents filename chunks).
Proof.
  rewrite file_documents_ids. apply NoDup_alt. intros i j x Hi Hj.
  rewrite list_lookup_imap in Hi, Hj.
  destruct (chunks !! i); [| discriminate].
  destruct (chunks !! j); [| discriminate].
  simpl in Hi, Hj. injection Hi as <-. injection Hj as Hj.
  symmetry. now apply chunk_id_inj in Hj as [_ ?].
Qed.

Lemma file_documents_source (filename : string) (chunks : list string)
    (x : string) :
  x ∈ doc_id <$> file_documents filename chunks ->
  exists i, x = filename +:+ "_" +:+ Py.str_of_nat i.
Proof.
  rewrite file_documents_ids. intros [i Hi]%list_elem_of_lookup.
  rewrite list_lookup_imap in Hi.
  destruct (chunks !! i); [| discriminate].
  simpl in Hi. injection Hi as <-. eauto.
Qed.

Lemma documents_of_source (listing : list (string * string)) (x : string) :
  x ∈ doc_id <$> documents_of listing ->
  exists filename i,
    filename ∈ listing.*1 /\ x = filename +:+ "_" +:+ Py.str_of_nat i.
Proof.
  induction listing as [|[filename content] listing IH]; intros Hx.
  - inversion Hx.
  - rewrite documents_of_cons, fmap_app in Hx.
    apply elem_of_app in Hx as [Hx|Hx].
    + destruct (Py.endswith filename ".txt" || Py.endswith filename ".md");
        [| inversion Hx].
      apply file_documents_source in Hx as [i ->].
      exists filename, i. split; [left | reflexivity].
    + destruct (IH Hx) as (f & i & Hf & ->).
      exists f, i. split; [now right | reflexivity].
Qed.

(** Chunk ids are unique across a corpus whose files have distinct names. *)
Lemma documents_of_NoDup (listing : list (string * string)) :
  NoDup listing.*1 -> NoDup (doc_id <$> documents_of listing).
Proof.
  induction listing as [|[filename content] listing IH]; intros Hnd.
  - constructor.
  - simpl in Hnd. apply NoDup_cons in Hnd as [Hfresh Hnd].
    rewrite documents_of_cons, fmap_app. apply NoDup_app.
    split; [| split; [| now apply IH]].
    + destruct (Py.endswith filename ".txt" || Py.endswith filename ".md");
        [apply file_documents_NoDup | constructor].
    + intros x Hx Hx'.
      destruct (Py.endswith filename ".txt" || Py.endswith filename ".md");
        [| inversion Hx].
      apply file_documents_source in Hx as [i ->].
      apply documents_of_source in Hx' as (f & i' & Hf & E).
      apply chunk_id_inj in E as [-> _]. contradiction.
Qed.

Lemma upsert_records_lookup_other (recs : gmap string Vector)
    (vs : list Vector) (k : string) :
  k ∉ vec_id <$> vs -> upsert_records recs vs !! k = recs !! k.
Proof.
  revert recs. induction vs as [|v vs IH]; intros recs Hk; [reflexivity |].
  simpl in *. apply not_elem_of_cons in Hk as [Hne Hk].
  rewrite IH by exact Hk. now apply lookup_insert_ne.
Qed.

(** With distinct ids, each upserted record is the one found under its id. *)
Lemma upsert_records_lookup (recs : gmap string Vector) (vs : list Vector)
    (v : Vector) :
  NoDup (vec_id <$> vs) -> v ∈ vs ->
  upsert_records recs vs !! vec_id v = Some v.
Proof.
  revert recs. induction vs as [|v0 vs IH]; intros recs Hnd Hin.
  - inversion Hin.
  - simpl in *. apply NoDup_cons in Hnd as [Hfresh Hnd].
    apply elem_of_cons in Hin as [->|Hin].
    + rewrite upsert_records_lookup_other by exact Hfresh.
      apply lookup_insert_eq.
    + now apply IH.
Qed.

Lemma elem_of_concat {A : Type} (x : A) (l : list A) (ls : list (list A)) :
  l ∈ ls -> x ∈ l -> x ∈ concat ls.
Proof.
  induction ls as [|l0 ls IH]; intros Hl Hx; [inversion Hl |].
  simpl. apply elem_of_app.
  apply elem_of_cons in Hl as [->|Hl]; [now left | right; now apply IH].
Qed.

Lemma upsert_batches_concat (self : Engine) (recs : gmap string Vector)
    (batches : list (list Document)) :
  upsert_batches self recs batches
  = upsert_records recs (vector_of self <$> concat batches).
Proof.
  revert recs. induction batches as [|b batches IH]; intros recs;
    [reflexivity |].
  simpl. rewrite IH, fmap_app. unfold upsert_records. now rewrite foldl_app.
Qed.

(** With distinct ids, the record of every document of the upserted batches
    is the one found under its id. *)
Lemma upsert_batches_lookup (self : Engine) (recs : gmap string Vector)
    (batches : list (list Document)) (b : list Document) (doc : Document) :
  NoDup (doc_id <$> concat batches) ->
  b ∈ batches -> doc ∈ b ->
  upsert_batches self recs batches !! doc_id doc = Some (vector_of self doc).
Proof.
  intros Hnd Hb Hdoc. rewrite upsert_batches_concat.
  apply (upsert_records_lookup recs _ (vector_of self doc)).
  - rewrite <- list_fmap_compose. exact Hnd.
  - apply list_elem_of_fmap_2. now apply (elem_of_concat doc b batches).
Qed.

Lemma windows_take_NoDup (documents : list Document) (k n : nat) :
  0 < k ->
  NoDup (doc_id <$> documents) ->
  NoDup (doc_id <$> concat (take n (windows documents k))).
Proof.
  intros Hk Hnd.
  rewrite <- (windows_concat documents k Hk) in Hnd.
  rewrite <- (take_drop n (windows documents k)) in Hnd.
  rewrite concat_app, fmap_app in Hnd.
  now apply NoDup_app in Hnd as [? _].
Qed.

End id_facts.

(** ** Failure during indexing *)

Section indexing_claims.

(** C5: when the first failing call of an indexing run is call [j] of batch
    [n] (batches and calls counted from 0; the calls of a batch are the
    embeddings of its documents followed by its upsert), the run raises, the
    index then holds exactly the records of the batches before [n] upserted
    over what it held, so each of their documents has a record under its id
    (its own record when the files have distinct names), and the calls made
    are those of the batches before [n] followed by the calls of batch [n]
    up to the failing one: none for a later batch. *)
Theorem index_documents_aborts_at_failure (self : Engine) (handle : string)
    (w : World) (recs : gmap string Vector) (n j : nat)
    (batch : list Document) :
  let batches := windows (documents_of (files w)) batch_size in
  let before := calls_of self handle (take n batches) in
  index self = Some handle ->
  pinecone w !! handle = Some recs ->
  batches !! n = Some batch ->
  j <= length batch ->
  no_fault (length (trace w)) (length before + j) ->
  fault providers (length (trace w) + length before + j) = true ->
  exists e w1 recs1,
    index_documents self w = (Raise e, w1)
    /\ pinecone w1 = <[handle := recs1]> (pinecone w)
    /\ recs1 = upsert_batches self recs (take n batches)
    /\ (forall m b doc, m < n -> batches !! m = Some b -> doc ∈ b ->
          holds_id recs1 (doc_id doc))
    /\ (NoDup (files w).*1 ->
        forall m b doc, m < n -> batches !! m = Some b -> doc ∈ b ->
          recs1 !! doc_id doc = Some (vector_of self doc))
    /\ trace w1
       = trace w ++ before ++ take (S j) (batch_calls self handle batch).
Proof.
  intros batches before Hidx Hrecs Hn Hj Hnf Hf.
  eexists _, _, (upsert_batches self recs (take n batches)).
  rewrite (index_documents_loop self w).
  rewrite (index_batches_fault self handle Hidx _ n j batch w recs);
    try assumption.
  assert (Hin : forall m b, m < n -> batches !! m = Some b ->
                  b ∈ take n batches).
  { intros m b Hm Hb. apply list_elem_of_lookup. exists m.
    rewrite lookup_take_lt by exact Hm. exact Hb. }
  split; [reflexivity |]. split; [reflexivity |]. split; [reflexivity |].
  split; [| split; [| reflexivity]].
  - intros m b doc Hm Hb Hdoc.
    apply (holds_id_upsert_batches self recs _ b doc); eauto.
  - intros Hnames m b doc Hm Hb Hdoc.
    apply (upsert_batches_lookup self recs _ b doc); eauto.
    apply windows_take_NoDup; [unfold batch_size; lia |].
    now apply documents_of_NoDup.
Qed.

End indexing_claims.

(** ** The query pipeline *)

Section query_claims.

Variable self : Engine.
Variable handle : string.
Hypothesis self_index : index self = Some handle.

Lemma list_of_set_NoDup (xs : list string) : NoDup (list_of_set xs).
Proof. unfold list_of_set. apply NoDup_elements. Qed.

Lemma list_of_set_elem (xs : list string) (s : string) :
  s ∈ list_of_set xs <-> s ∈ xs.
Proof.
  unfold list_of_set. rewrite elem_of_elements. apply elem_of_list_to_set.
Qed.

Lemma list_of_set_nil : list_of_set [] = [].
Proof. unfold list_of_set. simpl. apply elements_empty. Qed.

(** Retrieval when neither the embedding nor the store call fails. *)
Lemma retrieve_run (user_query : string) (top_k : Z) (w : World)
    (recs : gmap string Vector) :
  pinecone w !! handle = Some recs ->
  no_fault (length (trace w)) 2 ->
  retrieve_relevant_chunks self user_query top_k w
  = (Ok (chunk_of_match
           <$> take (Z.to_nat top_k)
                 (ranking providers
                    (embedding providers (embedding_model self) user_query)
                    recs)),
     log [EmbeddingsCreate (embedding_model self) user_query;
          QueryIndex handle
            (embedding providers (embedding_model self) user_query)
            top_k true] w).
Proof.
  intros Hrecs Hnf.
  unfold retrieve_relevant_chunks, get_embedding, embeddings_create,
    the_index, index_query, records_of.
  rewrite self_index. unfold bind at 1 2.
  rewrite call_ok
    by (specialize (Hnf 0 ltac:(lia)); now rewrite Nat.add_0_r in Hnf).
  unfold ret at 1. unfold bind at 1. unfold ret at 1.
  unfold bind at 1 2.
  rewrite call_ok
    by (simpl; rewrite length_app; apply (Hnf 1); lia).
  unfold bind. simpl. rewrite Hrecs. unfold ret.
  rewrite log_log. reflexivity.
Qed.

(** A whole query when none of its three calls fails. *)
Lemma query_run (user_query : string) (w : World) (recs : gmap string Vector) :
  pinecone w !! handle = Some recs ->
  no_fault (length (trace w)) 3 ->
  let chunks := chunk_of_match <$> matches_for self user_query recs in
  let messages :=
    chat_messages (build_prompt user_query (build_context chunks)) in
  query self user_query w
  = (Ok (completion providers (llm_model self) messages,
         list_of_set (chunk_source <$> chunks)),
     log [EmbeddingsCreate (embedding_model self) user_query;
          QueryIndex handle
            (embedding providers (embedding_model self) user_query)
            default_top_k true;
          ChatCompletionsCreate (llm_model self) messages (7 # 10)%Q 500] w).
Proof.
  intros Hrecs Hnf chunks messages. unfold query, bind at 1.
  rewrite (retrieve_run user_query default_top_k w recs Hrecs)
    by (eapply no_fault_weaken; [| exact Hnf]; lia).
  unfold bind at 1.
  unfold generate_response, chat_completions_create, bind at 1.
  rewrite call_ok
    by (simpl; rewrite length_app; apply (Hnf 2); lia).
  unfold ret. rewrite log_log. reflexivity.
Qed.

(** Whatever fails, a query never asks the store for anything but
    [top_k = 3]. *)
Lemma query_only_asks_top_3 (engine : Engine) (user_query : string)
    (w : World) :
  exists calls,
    trace (query engine user_query w).2 = trace w ++ calls
    /\ forall h v k b, QueryIndex h v k b ∈ calls -> k = 3%Z.
Proof.
  unfold query, retrieve_relevant_chunks, generate_response, get_embedding,
    embeddings_create, chat_completions_create, the_index, index_query,
    records_of, bind, ret, raise, call.
  destruct (fault providers (length (trace w))) eqn:F0; simpl.
  { eexists. split; [reflexivity |]. intros h v k b Hin.
    apply list_elem_of_singleton in Hin. discriminate. }
  destruct (index engine) as [hd|]; simpl.
  2:{ eexists. split; [reflexivity |]. intros h v k b Hin.
      apply list_elem_of_singleton in Hin. discriminate. }
  match goal with
  | |- context [if fault providers ?n then _ else _] =>
      destruct (fault providers n) eqn:F1; simpl
  end.
  { eexists. rewrite <- app_assoc. split; [reflexivity |].
    intros h v k b Hin. simpl in Hin.
    apply elem_of_cons in Hin as [Hin|Hin]; [discriminate |].
    apply list_elem_of_singleton in Hin. now injection Hin as _ _ -> _. }
  destruct (pinecone w !! hd) as [recs|]; simpl.
  2:{ eexists. rewrite <- app_assoc. split; [reflexivity |].
      intros h v k b Hin. simpl in Hin.
      apply elem_of_cons in Hin as [Hin|Hin]; [discriminate |].
      apply list_elem_of_singleton in Hin. now injection Hin as _ _ -> _. }
  match goal with
  | |- context [if fault providers ?n then _ else _] =>
      destruct (fault providers n) eqn:F2; simpl
  end.
  all: eexists; rewrite <- !app_assoc; (split; [reflexivity |]);
    intros h v k b Hin; simpl in Hin;
    apply elem_of_cons in Hin as [Hin|Hin]; [discriminate |];
    apply elem_of_cons in Hin as [Hin|Hin];
      [now injection Hin as _ _ -> _ |];
    apply list_elem_of_singleton in Hin; discriminate.
Qed.

End query_claims.

(** C3: the sources returned by a query hold each distinct source of the
    retrieved chunks exactly once: the list has no repetition and has the
    same members as the sources of the chunks; when no chunk is retrieved
    the sources are empty and the context block of the prompt sent to the
    model is the empty string. *)
Theorem query_sources_distinct (self : Engine) (handle : string)
    (user_query : string) (w : World) (recs : gmap string Vector) :
  index self = Some handle ->
  pinecone w !! handle = Some recs ->
  no_fault (length (trace w)) 3 ->
  exists chunks response sources w1 w2 prompt,
    retrieve_relevant_chunks self user_query default_top_k w = (Ok chunks, w1)
    /\ query self user_query w = (Ok (response, sources), w2)
    /\ NoDup sources
    /\ (forall s, s ∈ sources <-> exists c, c ∈ chunks /\ chunk_source c = s)
    /\ trace w2
       = trace w1 ++ [ChatCompletionsCreate (llm_model self)
                        (chat_messages prompt) (7 # 10)%Q 500]
    /\ prompt = build_prompt user_query (build_context chunks)
    /\ (chunks = [] -> sources = [] /\ build_context chunks = "").
Proof.
  intros Hidx Hrecs Hnf.
  pose proof (query_run self handle Hidx user_query w recs Hrecs Hnf) as Hq.
  pose proof (retrieve_run self handle Hidx user_query default_top_k w recs
                Hrecs ltac:(eapply no_fault_weaken; [| exact Hnf]; lia)) as Hr.
  simpl in Hq. fold (matches_for self user_query recs) in Hr.
  do 6 eexists. split; [exact Hr |]. split; [exact Hq |].
  split; [apply list_of_set_NoDup |].
  split.
  { intros s. rewrite list_of_set_elem, list_elem_of_fmap.
    split; intros (c & H1 & H2); eauto. }
  split; [simpl; now rewrite <- app_assoc |].
  split; [reflexivity |].
  intros ->. split; [apply list_of_set_nil | reflexivity].
Qed.

(** C9: a query asks the store for top_k = 3 (the only store query it makes),
    gets at most 3 chunks, the leading matches of the store's ranking, and
    sends the model a prompt whose context block is the entries of these
    matches in ranked order, each the match's text under a header naming
    its source, separated by blank lines. *)
Theorem query_retrieves_top_3 (self : Engine) (handle : string)
    (user_query : string) (w : World) (recs : gmap string Vector) :
  index self = Some handle ->
  pinecone w !! handle = Some recs ->
  no_fault (length (trace w)) 3 ->
  let vector := embedding providers (embedding_model self) user_query in
  exists matches chunks response sources w1 w2 context,
    retrieve_relevant_chunks self user_query default_top_k w = (Ok chunks, w1)
    /\ query self user_query w = (Ok (response, sources), w2)
    /\ trace w2
       = trace w ++ [EmbeddingsCreate (embedding_model self) user_query;
                     QueryIndex handle vector 3 true;
                     ChatCompletionsCreate (llm_model self)
                       (chat_messages (build_prompt user_query context))
                       (7 # 10)%Q 500]
    /\ matches = take 3 (ranking providers vector recs)
    /\ chunks = chunk_of_match <$> matches
    /\ length chunks <= 3
    /\ context = Py.join (nl +:+ nl) (match_entry <$> matches).
Proof.
  intros Hidx Hrecs Hnf vector.
  pose proof (query_run self handle Hidx user_query w recs Hrecs Hnf) as Hq.
  pose proof (retrieve_run self handle Hidx user_query default_top_k w recs
                Hrecs ltac:(eapply no_fault_weaken; [| exact Hnf]; lia)) as Hr.
  simpl in Hq.
  exists (take 3 (ranking providers vector recs)).
  do 6 eexists. split; [exact Hr |]. split; [exact Hq |].
  split; [reflexivity |]. split; [reflexivity |]. split; [reflexivity |].
  split.
  - rewrite length_fmap, length_take. unfold default_top_k. lia.
  - unfold build_context, matches_for. rewrite <- list_fmap_compose.
    reflexivity.
Qed.

(** ** Start-up without credentials *)

(** C8: when PINECONE_API_KEY or OPENAI_API_KEY is missing from the
    environment, building the engine raises a ValueError, start-up re-raises
    it before yielding, so the application never serves; no call was made on
    a provider or on the store (the world, its trace included, is as
    before) and the global engine stays unset. *)
Theorem lifespan_missing_credentials (environ : gmap string string)
    (w : World) :
  environ !! "PINECONE_API_KEY" = None
  \/ environ !! "OPENAI_API_KEY" = None ->
  exists msg,
    init environ = Raise (ValueError msg)
    /\ lifespan environ w = (Raise (ValueError msg), None, w).
Proof.
  intros H. unfold lifespan, init.
  destruct (environ !! "PINECONE_API_KEY") as [[|c pkey]|] eqn:Ep;
    try (eexists; split; reflexivity).
  destruct H as [H|H]; [discriminate |]. rewrite H.
  eexists; split; reflexivity.
Qed.

(** ** Scenario: one document of 600 words *)

(** C4: a corpus of one document "policy.txt" whose content has exactly 600
    words is chunked, with the default size 512, into exactly two chunks of
    512 and 88 words; the documents built from them have the ids
    "policy.txt_0" and "policy.txt_1", and these are the ids the indexing run
    upserts. *)
Theorem policy_document_two_chunks (self : Engine) (handle : string)
    (w : World) (recs : gmap string Vector) (content : string) :
  length (Py.split content) = 600 ->
  files w = [("policy.txt", content)] ->
  index self = Some handle ->
  pinecone w !! handle = Some recs ->
  no_fault (length (trace w)) 3 ->
  exists c0 c1 documents w1,
    chunk_text content default_chunk_size = Ok [c0; c1]
    /\ length (Py.split c0) = 512
    /\ length (Py.split c1) = 88
    /\ read_documents (files w) [] = Ok documents
    /\ doc_id <$> documents = ["policy.txt_0"; "policy.txt_1"]
    /\ doc_text <$> documents = [c0; c1]
    /\ index_documents self w = (Ok tt, w1)
    /\ upserted_ids (drop (length (trace w)) (trace w1))
       = ["policy.txt_0"; "policy.txt_1"].
Proof.
  intros Hlen Hfiles Hidx Hrecs Hnf.
  pose proof (split_words content) as Hwords.
  assert (Hk : 0 < 512) by lia.
  assert (Hcount : ceil_div (length (Py.split content)) 512 = 2)
    by (rewrite Hlen; reflexivity).
  destruct (windows_lookup (Py.split content) 512 0 Hk) as [H0 _];
    [rewrite Hcount; lia |].
  destruct (windows_lookup (Py.split content) 512 1 Hk) as [H1 _];
    [rewrite Hcount; lia |].
  pose proof (windows_length (Py.split content) 512) as Hwl.
  rewrite Hcount in Hwl.
  destruct (windows (Py.split content) 512) as [|g0 [|g1 [|g2 gs]]] eqn:Ew;
    try discriminate.
  injection H0 as ->. injection H1 as ->.
  pose proof (windows_Forall word (Py.split content) 512 Hk Hwords) as HF.
  rewrite Ew in HF. apply Forall_cons in HF as [Hg0 HF].
  apply Forall_cons in HF as [Hg1 _].
  assert (Hchunks : default_chunks content
                    = [Py.join " " (take 512 (drop (0 * 512) (Py.split content)));
                       Py.join " " (take 512 (drop (1 * 512) (Py.split content)))])
    by (unfold default_chunks; now rewrite Ew).
  assert (Hdocs : documents_of (files w)
                  = file_documents "policy.txt" (default_chunks content))
    by (rewrite Hfiles; unfold documents_of; simpl; now rewrite app_nil_r).
  rewrite Hchunks in Hdocs.
  eexists _, _, _, _.
  split.
  { unfold default_chunk_size. rewrite chunk_text_windows.
    change (Pos.to_nat 512) with 512. rewrite Ew. reflexivity. }
  split; [rewrite split_join by exact Hg0;
          rewrite length_take, length_drop; lia |].
  split; [rewrite split_join by exact Hg1;
          rewrite length_take, length_drop; lia |].
  split; [rewrite read_documents_total, Hdocs; reflexivity |].
  split; [reflexivity |]. split; [reflexivity |].
  split.
  { rewrite (index_documents_ok self handle Hidx w recs Hrecs);
      [reflexivity |].
    rewrite Hdocs. exact Hnf. }
  cbn [trace world_after]. rewrite drop_app_length.
  rewrite upserted_ids_calls.
  rewrite windows_concat by (unfold batch_size; lia).
  rewrite Hdocs. reflexivity.
Qed.

(** ** More on the chunker *)

Section chunker_more.

Import Py.

Lemma join_word_group_normalised (g : list string) :
  Forall word g -> g <> [] -> normalised (join " " g).
Proof.
  intros Hg Hne. split; [now apply join_truthy |].
  split; [now apply strip_join | now rewrite split_join].
Qed.

Lemma windows_member_words (ws : list string) (k : nat) (g : list string) :
  0 < k -> Forall word ws -> g ∈ windows ws k -> Forall word g /\ g <> [].
Proof.
  intros Hk Hws Hin. split.
  - pose proof (windows_Forall word ws k Hk Hws) as HF.
    rewrite Forall_forall in HF. now apply HF.
  - apply windows_bound in Hin; [| exact Hk].
    intros ->. simpl in Hin. lia.
Qed.

(** What [chunk_text] returns, read back from a successful call. *)
Lemma chunk_text_Ok_inv (text : string) (chunk_size : Z)
    (chunks : list string) :
  chunk_text text chunk_size = Ok chunks ->
  (chunk_size < 0)%Z /\ chunks = []
  \/ (0 < chunk_size)%Z
     /\ chunks = join " " <$> windows (split text) (Z.to_nat chunk_size).
Proof.
  destruct chunk_size as [|p|p]; intros H.
  - discriminate.
  - right. split; [lia |]. rewrite chunk_text_windows in H.
    injection H as <-. now rewrite Z2Nat.inj_pos.
  - left. split; [lia |]. simpl in H. congruence.
Qed.

(** X1: every segment [chunk_text] returns is in normal form: it is not
    empty, has no white space at either end, and is its own words joined by
    single spaces, whatever the white space of the text was. *)
Theorem chunk_text_segments_normalised (text : string) (chunk_size : Z)
    (chunks : list string) :
  chunk_text text chunk_size = Ok chunks ->
  Forall normalised chunks.
Proof.
  intros [[_ ->]|[Hpos ->]]%chunk_text_Ok_inv; [constructor |].
  apply Forall_fmap, Forall_forall. intros g Hg. simpl.
  apply windows_member_words in Hg as [Hw Hne];
    [| lia | apply split_words].
  now apply join_word_group_normalised.
Qed.

Lemma windows_single {A : Type} (xs : list A) (k : nat) :
  0 < length xs <= k -> windows xs k = [xs].
Proof.
  intros Hlen. assert (Hk : 0 < k) by lia.
  assert (Hc : ceil_div (length xs) k = 1).
  { pose proof (ceil_div_spec (length xs) k Hk). nia. }
  pose proof (windows_length xs k) as Hl. rewrite Hc in Hl.
  destruct (windows_lookup xs k 0 Hk) as [H0 _]; [rewrite Hc; lia |].
  destruct (windows xs k) as [|g [|g' gs]]; try discriminate.
  injection H0 as ->. simpl. rewrite drop_0. now rewrite take_ge by lia.
Qed.

Lemma windows_nil {A : Type} (k : nat) : 0 < k -> windows (@nil A) k = [].
Proof.
  intros Hk. apply length_zero_iff_nil. rewrite windows_length.
  pose proof (ceil_div_spec (@length A []) k Hk). simpl in *. nia.
Qed.

(** X2: a segment is a fixed point of the chunker: chunking any returned
    segment again with the same size gives back that segment alone. *)
Theorem chunk_text_segment_fixed (text : string) (chunk_size : Z)
    (chunks : list string) (c : string) :
  chunk_text text chunk_size = Ok chunks ->
  c ∈ chunks ->
  chunk_text c chunk_size = Ok [c].
Proof.
  intros [[_ ->]|[Hpos ->]]%chunk_text_Ok_inv Hc; [inversion Hc |].
  apply list_elem_of_fmap in Hc as (g & -> & Hg).
  assert (Hk : 0 < Z.to_nat chunk_size) by lia.
  pose proof (windows_bound _ _ _ Hk Hg) as Hlen.
  apply windows_member_words in Hg as [Hw Hne];
    [| exact Hk | apply split_words].
  destruct chunk_size as [|p|p]; try lia.
  rewrite chunk_text_windows, split_join by exact Hw.
  rewrite Z2Nat.inj_pos in Hlen.
  now rewrite windows_single.
Qed.

Lemma join_app (sep : string) (g h : list string) :
  g <> [] -> h <> [] ->
  join sep (g ++ h) = join sep g +:+ sep +:+ join sep h.
Proof.
  intros Hg Hh. induction g as [|w g IH]; [congruence |].
  destruct g as [|w' g].
  - simpl app. now rewrite join_cons.
  - change ((w :: w' :: g) ++ h) with (w :: ((w' :: g) ++ h)).
    rewrite join_cons by discriminate.
    rewrite IH by discriminate.
    rewrite (join_cons sep w (w' :: g)) by discriminate.
    now rewrite !append_assoc.
Qed.

Lemma join_concat (sep : string) (gs : list (list string)) :
  Forall (fun g => g <> []) gs ->
  join sep (join sep <$> gs) = join sep (concat gs).
Proof.
  induction gs as [|g gs IH]; intros Hgs; [reflexivity |].
  apply Forall_cons in Hgs as [Hg Hgs].
  destruct gs as [|g' gs].
  - simpl. now rewrite app_nil_r.
  - change (join sep <$> g :: g' :: gs)
      with (join sep g :: (join sep <$> g' :: gs)).
    rewrite join_cons by discriminate.
    rewrite IH by exact Hgs.
    change (concat (g :: g' :: gs)) with (g ++ concat (g' :: gs)).
    rewrite join_app; [reflexivity | exact Hg |].
    apply Forall_cons in Hgs as [Hg' _].
    simpl. destruct g'; [congruence | discriminate].
Qed.

(** X3: for a positive size, the segments joined by single spaces are the
    words of the text joined by single spaces: chunking loses the layout of
    the white space and nothing else. *)
Theorem chunk_text_join (text : string) (chunk_size : Z)
    (chunks : list string) :
  (0 < chunk_size)%Z ->
  chunk_text text chunk_size = Ok chunks ->
  join " " chunks = join " " (split text).
Proof.
  intros Hpos [[Hneg _]|[_ ->]]%chunk_text_Ok_inv; [lia |].
  assert (Hk : 0 < Z.to_nat chunk_size) by lia.
  rewrite join_concat.
  - now rewrite windows_concat.
  - apply Forall_forall. intros g Hg.
    now apply windows_member_words in Hg as [_ ?];
      [| exact Hk | apply split_words].
Qed.

(** X4: the outcomes of [chunk_text] by size: it raises exactly when the
    size is zero (from [range]), and it returns no segment exactly when the
    size is negative, whatever the text, or the size is positive and the text
    is blank. *)
Theorem chunk_text_outcomes (text : string) (chunk_size : Z) :
  ((exists e, chunk_text text chunk_size = Raise e) <-> chunk_size = 0%Z)
  /\ (chunk_text text chunk_size = Ok []
      <-> (chunk_size < 0)%Z \/ (0 < chunk_size)%Z /\ blank text = true).
Proof.
  destruct chunk_size as [|p|p].
  - split; [split; [reflexivity | intros _; eexists; reflexivity] |].
    split; [discriminate | intros [?|[? _]]; lia].
  - rewrite chunk_text_windows. split.
    + split; [intros [e He]; discriminate | discriminate].
    + split.
      * intros H. right. split; [lia |].
        injection H as H. apply fmap_nil_inv in H.
        apply split_nil. destruct (split text) eqn:E; [reflexivity |].
        exfalso. apply (windows_nonempty (split text) (Pos.to_nat p));
          [lia | rewrite E; discriminate | now rewrite E].
      * intros [?|[_ Hb]]; [lia |].
        apply split_nil in Hb. rewrite Hb.
        now rewrite windows_nil by lia.
  - split.
    + split; [intros [e He]; discriminate | discriminate].
    + split; [intros _; left; lia | reflexivity].
Qed.

End chunker_more.

(** ** The documents of a corpus *)

Section documents_more.

Lemma chunk_text_default (content : string) :
  chunk_text content default_chunk_size = Ok (default_chunks content).
Proof. unfold default_chunk_size. now rewrite chunk_text_windows. Qed.

Lemma file_documents_elem (filename : string) (chunks : list string)
    (d : Document) :
  d ∈ file_documents filename chunks
  <-> doc_source d = filename
      /\ chunks !! doc_chunk_index d = Some (doc_text d)
      /\ doc_id d = filename +:+ "_" +:+ Py.str_of_nat (doc_chunk_index d).
Proof.
  unfold file_documents. rewrite elem_of_lookup_imap. split.
  - intros (i & c & -> & Hc). simpl. auto.
  - intros (Hs & Hc & Hid). exists (doc_chunk_index d), (doc_text d).
    split; [| exact Hc]. destruct d; simpl in *. now subst.
Qed.

Lemma documents_of_elem (listing : list (string * string)) (d : Document) :
  d ∈ documents_of listing
  <-> exists content,
        (doc_source d, content) ∈ listing
        /\ eligible (doc_source d) = true
        /\ default_chunks content !! doc_chunk_index d = Some (doc_text d)
        /\ doc_id d
           = doc_source d +:+ "_" +:+ Py.str_of_nat (doc_chunk_index d).
Proof.
  unfold documents_of. rewrite list_elem_of_bind. split.
  - intros ([filename content] & Hd & Hin). simpl in Hd.
    destruct (Py.endswith filename ".txt" || Py.endswith filename ".md")
      eqn:E; [| inversion Hd].
    apply file_documents_elem in Hd as (Hs & Hc & Hid).
    exists content. subst filename. auto.
  - intros (content & Hin & He & Hc & Hid).
    exists (doc_source d, content). split; [| exact Hin]. simpl.
    unfold eligible in He. rewrite He.
    now apply file_documents_elem.
Qed.


(** X6: when the files of the directory have distinct names, no two
    documents share an id, across files and within a file. *)
Theorem read_documents_ids_unique (listing : list (string * string)) :
  NoDup listing.*1 ->
  exists documents,
    read_documents listing [] = Ok documents
    /\ NoDup (doc_id <$> documents).
Proof.
  intros Hnd. exists (documents_of listing).
  split; [apply read_documents_total | now apply documents_of_NoDup].
Qed.

(** X21: every document built from the corpus, and so every text sent for
    embedding or stored as metadata, is a segment in normal form of at
    least 1 and at most 512 words. *)
Theorem read_documents_texts_bounded (listing : list (string * string)) :
  exists documents,
    read_documents listing [] = Ok documents
    /\ Forall (fun d =>
                 normalised (doc_text d)
                 /\ 0 < length (Py.split (doc_text d)) <= 512) documents.
Proof.
  exists (documents_of listing). split; [apply read_documents_total |].
  apply Forall_forall. intros d Hd.
  apply documents_of_elem in Hd as (content & _ & _ & Hc & _).
  unfold default_chunks in Hc. rewrite list_lookup_fmap in Hc.
  destruct (windows (Py.split content) 512 !! doc_chunk_index d) as [g|] eqn:Eg;
    [| discriminate].
  injection Hc as <-.
  assert (Hg : g ∈ windows (Py.split content) 512)
    by (apply list_elem_of_lookup; eauto).
  assert (Hk : 0 < 512) by lia.
  pose proof (windows_bound (Py.split content) 512 g Hk Hg) as Hlen.
  apply windows_member_words in Hg as [Hw Hne];
    [| exact Hk | apply split_words].
  split; [now apply join_word_group_normalised |].
  now rewrite split_join.
Qed.

End documents_more.

(** ** Indexing, whatever fails *)

Section indexing_more.

Variable self : Engine.
Variable handle : string.
Hypothesis self_index : index self = Some handle.

(** Either no call of a range fails, or there is a first one that does. *)
Lemma fault_cases (from count : nat) :
  no_fault from count
  \/ exists j, j < count /\ no_fault from j
               /\ fault providers (from + j) = true.
Proof.
  induction count as [|count IH].
  - left. intros i Hi. lia.
  - destruct IH as [Hnf|(j & Hj & Hnf & Hf)].
    + destruct (fault providers (from + count)) eqn:F.
      * right. exists count. auto.
      * left. intros i Hi. destruct (decide (i = count)) as [->|Hne];
          [exact F | apply Hnf; lia].
    + right. exists j. split; [lia | auto].
Qed.

(** A batch either goes through or stops at its first failing call. *)
Lemma index_batch_cases (batch : list Document) (w : World)
    (recs : gmap string Vector) :
  pinecone w !! handle = Some recs ->
  index_batch self batch w
  = (Ok tt,
     world_after w handle (upsert_records recs (vector_of self <$> batch))
       (batch_calls self handle batch))
  \/ exists j e,
       j <= length batch
       /\ index_batch self batch w
          = (Raise e, log (take (S j) (batch_calls self handle batch)) w).
Proof.
  intros Hrecs.
  destruct (fault_cases (length (trace w)) (S (length batch)))
    as [Hnf|(j & Hj & Hnf & Hf)].
  - left. now apply index_batch_ok.
  - right. exists j, (ProviderError (length (trace w) + j)).
    split; [lia |]. apply index_batch_fault; [exact self_index | lia | | ];
      assumption.
Qed.

(** The batch loop always leaves the index with some leading batches
    upserted and the trace with a prefix of the calls of a full run. *)
Lemma index_batches_progress (batches : list (list Document)) (w : World)
    (recs : gmap string Vector) :
  pinecone w !! handle = Some recs ->
  exists r m k,
    for_each batches (index_batch self) w
    = (r, world_after w handle (upsert_batches self recs (take m batches))
            (take k (calls_of self handle batches))).
Proof.
  revert w recs. induction batches as [|b batches IH]; intros w recs Hrecs.
  - exists (Ok tt), 0, 0. simpl. unfold ret.
    rewrite world_after_same by exact Hrecs. now rewrite log_nil.
  - cbn [for_each]. unfold bind.
    destruct (index_batch_cases b w recs Hrecs) as [->|(j & e & Hj & ->)].
    + destruct (IH (world_after w handle
                      (upsert_records recs (vector_of self <$> b))
                      (batch_calls self handle b))
                   (upsert_records recs (vector_of self <$> b)))
        as (r & m & k & ->); [apply lookup_insert_eq |].
      exists r, (S m), (length (batch_calls self handle b) + k).
      rewrite world_after_after, calls_of_cons, take_app_add. reflexivity.
    + exists (Raise e), 0, (S j).
      rewrite calls_of_cons, take_app_le
        by (rewrite batch_calls_length; lia).
      now rewrite world_after_same by exact Hrecs.
Qed.

Lemma index_documents_progress (w : World) (recs : gmap string Vector) :
  pinecone w !! handle = Some recs ->
  let batches := windows (documents_of (files w)) batch_size in
  exists r m k,
    index_documents self w
    = (r, world_after w handle (upsert_batches self recs (take m batches))
            (take k (calls_of self handle batches))).
Proof.
  intros Hrecs batches. rewrite index_documents_loop.
  now apply index_batches_progress.
Qed.

Lemma concat_take_subset {A : Type} (ls : list (list A)) (m : nat) (x : A) :
  x ∈ concat (take m ls) -> x ∈ concat ls.
Proof.
  rewrite <- (take_drop m ls) at 2. rewrite concat_app.
  intros H. apply elem_of_app. now left.
Qed.

(** X7: whatever call fails, an indexing run only adds to the engine's
    index or replaces under the ids of the corpus: every id present before
    is still present, a record whose id is not the id of a document is
    untouched, and the other indexes and the files are as before. *)
Theorem index_documents_only_adds (w : World) (recs : gmap string Vector) :
  pinecone w !! handle = Some recs ->
  exists r w1 recs1,
    index_documents self w = (r, w1)
    /\ pinecone w1 = <[handle := recs1]> (pinecone w)
    /\ files w1 = files w
    /\ dom recs ⊆ dom recs1
    /\ (forall k, k ∉ doc_id <$> documents_of (files w) ->
          recs1 !! k = recs !! k).
Proof.
  intros Hrecs.
  destruct (index_documents_progress w recs Hrecs) as (r & m & k & Hrun).
  eexists r, _, _. split; [exact Hrun |].
  split; [reflexivity |]. split; [reflexivity |]. split.
  - rewrite upsert_batches_dom. apply union_subseteq_l.
  - intros id Hid. rewrite upsert_batches_concat.
    apply upsert_records_lookup_other.
    rewrite <- list_fmap_compose. intros Hin. apply Hid.
    apply list_elem_of_fmap in Hin as (d & -> & Hd).
    apply list_elem_of_fmap_2.
    apply concat_take_subset in Hd.
    now rewrite windows_concat in Hd by (unfold batch_size; lia).
Qed.

Lemma batch_calls_indexing (batch : list Document) :
  0 < length batch <= batch_size ->
  Forall (indexing_call self handle) (batch_calls self handle batch).
Proof.
  intros Hlen. unfold batch_calls. apply Forall_app. split.
  - unfold embedding_calls. apply Forall_fmap, Forall_forall.
    intros d _. reflexivity.
  - constructor; [| constructor]. simpl. now rewrite length_fmap.
Qed.

Lemma calls_of_indexing (documents : list Document) :
  Forall (indexing_call self handle)
    (calls_of self handle (windows documents batch_size)).
Proof.
  unfold calls_of. apply Forall_concat, Forall_fmap, Forall_forall.
  intros b Hb. simpl. apply batch_calls_indexing.
  apply windows_bound in Hb; [exact Hb | unfold batch_size; lia].
Qed.

(** X8: whatever call fails, an indexing run only makes embedding calls with
    the engine's model and upserts into the engine's index, each upsert
    carrying at least 1 and at most 100 records; it makes at most one call
    per document plus one per batch. *)
Theorem index_documents_calls_bounded (w : World) (recs : gmap string Vector) :
  pinecone w !! handle = Some recs ->
  exists r w1 calls,
    index_documents self w = (r, w1)
    /\ trace w1 = trace w ++ calls
    /\ Forall (indexing_call self handle) calls
    /\ length calls
       <= length (documents_of (files w))
          + ceil_div (length (documents_of (files w))) batch_size.
Proof.
  intros Hrecs.
  destruct (index_documents_progress w recs Hrecs) as (r & m & k & Hrun).
  eexists r, _, _. split; [exact Hrun |].
  split; [reflexivity |]. split.
  - apply Forall_take, calls_of_indexing.
  - rewrite length_take, calls_of_length, windows_length.
    rewrite windows_concat by (unfold batch_size; lia). lia.
Qed.

End indexing_more.

Section indexing_edges.

Lemma blank_no_chunks (content : string) :
  blank content = true -> default_chunks content = [].
Proof.
  intros Hb. apply split_nil in Hb. unfold default_chunks.
  rewrite Hb. now rewrite windows_nil by lia.
Qed.

(** X9: when every [.txt] or [.md] file of the directory is blank, and so
    also when there is none, an indexing run returns at once: no call is
    made and the world is unchanged, even for an engine that was never
    connected. *)
Theorem index_documents_empty_corpus (self : Engine) (w : World) :
  (forall filename content,
     (filename, content) ∈ files w ->
     (Py.endswith filename ".txt" || Py.endswith filename ".md") = true ->
     blank content = true) ->
  index_documents self w = (Ok tt, w).
Proof.
  intros Hblank.
  assert (Hdocs : documents_of (files w) = []).
  { destruct (documents_of (files w)) as [|d ds] eqn:E; [reflexivity |].
    assert (Hd : d ∈ documents_of (files w)) by (rewrite E; left).
    apply documents_of_elem in Hd as (content & Hin & He & Hc & _).
    rewrite (blank_no_chunks content) in Hc; [discriminate |].
    now apply (Hblank (doc_source d)). }
  unfold index_documents, bind, get, lift.
  rewrite read_documents_total, Hdocs. reflexivity.
Qed.

(** X10: on an engine that [initialize] has not connected, an indexing run
    over a corpus with documents first requests the embeddings of the whole
    first batch and only then raises AttributeError: nothing is stored. *)
Theorem index_documents_unconnected (self : Engine) (w : World)
    (batch : list Document) :
  index self = None ->
  windows (documents_of (files w)) batch_size !! 0 = Some batch ->
  no_fault (length (trace w)) (length batch) ->
  exists msg,
    index_documents self w
    = (Raise (AttributeError msg), log (embedding_calls self batch) w).
Proof.
  intros Hidx Hb Hnf. rewrite index_documents_loop.
  destruct (windows (documents_of (files w)) batch_size) as [|b batches];
    [discriminate |].
  injection Hb as ->. cbn [for_each]. unfold bind at 1.
  unfold index_batch, bind at 1.
  rewrite collect_embed_ok by exact Hnf.
  unfold the_index. rewrite Hidx. unfold bind, raise.
  eexists. reflexivity.
Qed.

Lemma upsert_records_size (vs : list Vector) :
  NoDup (vec_id <$> vs) -> size (upsert_records ∅ vs) = length vs.
Proof.
  intros Hnd. rewrite <- size_dom, upsert_records_dom, dom_empty_L.
  rewrite (left_id_L ∅ (∪)), size_list_to_set by exact Hnd.
  apply length_fmap.
Qed.

(** X11: a run in which no call fails, over files with distinct names,
    stores the record of every document under its id; started on an empty
    index it leaves exactly as many records as there are documents. *)
Theorem index_documents_stores_all (self : Engine) (handle : string)
    (w : World) (recs : gmap string Vector) :
  index self = Some handle ->
  pinecone w !! handle = Some recs ->
  NoDup (files w).*1 ->
  no_fault (length (trace w))
    (length (documents_of (files w))
     + length (windows (documents_of (files w)) batch_size)) ->
  exists w1 recs1,
    index_documents self w = (Ok tt, w1)
    /\ pinecone w1 !! handle = Some recs1
    /\ (forall d, d ∈ documents_of (files w) ->
          recs1 !! doc_id d = Some (vector_of self d))
    /\ (recs = ∅ -> size recs1 = length (documents_of (files w))).
Proof.
  intros Hidx Hrecs Hnames Hnf.
  pose proof (documents_of_NoDup (files w) Hnames) as Hnd.
  assert (Hcat : concat (windows (documents_of (files w)) batch_size)
                 = documents_of (files w))
    by (apply windows_concat; unfold batch_size; lia).
  eexists _, _.
  split; [now apply (index_documents_ok self handle Hidx w recs) |].
  split; [apply lookup_insert_eq |]. split.
  - intros d Hd. rewrite upsert_batches_concat, Hcat.
    apply (upsert_records_lookup recs _ (vector_of self d)).
    + now rewrite <- list_fmap_compose.
    + now apply list_elem_of_fmap_2.
  - intros ->. rewrite upsert_batches_concat, Hcat.
    rewrite upsert_records_size; [apply length_fmap |].
    now rewrite <- list_fmap_compose.
Qed.

End indexing_edges.

(** ** Start-up, first and later *)

Section initialize_more.

(** Start-up on a populated index stops after a prefix of list, connect,
    describe, and leaves the store and the files alone. *)
Lemma initialize_guard (self : Engine) (w : World)
    (recs : gmap string Vector) :
  pinecone w !! index_name self = Some recs ->
  size recs <> 0 ->
  exists r s k, initialize self w = (r, s, log (take k (guard_calls self)) w).
Proof.
  intros Hrecs Hsize.
  assert (Hin : index_name self ∈ elements (dom (pinecone w))).
  { apply elem_of_elements, elem_of_dom. eauto. }
  unfold initialize, pc_list_indexes, pc_Index, index_describe_index_stats,
    the_index, records_of, bind, get, ret, call. simpl.
  destruct (fault providers (length (trace w))) eqn:F0; simpl.
  { eexists _, _, 1. reflexivity. }
  rewrite (bool_decide_eq_true_2 _ Hin). simpl.
  match goal with
  | |- context [if fault providers ?n then _ else _] =>
      destruct (fault providers n); simpl
  end.
  { eexists _, _, 2. rewrite log_log. reflexivity. }
  match goal with
  | |- context [if fault providers ?n then _ else _] =>
      destruct (fault providers n); simpl
  end.
  { eexists _, _, 3. rewrite !log_log. reflexivity. }
  rewrite Hrecs. simpl.
  destruct (size recs) as [|n] eqn:En; [congruence |]. simpl.
  eexists _, _, 3. rewrite !log_log. reflexivity.
Qed.

Lemma guard_calls_no_work (self : Engine) (k : nat) :
  Forall (fun c => indexing_work c = false) (take k (guard_calls self)).
Proof. apply Forall_take. repeat constructor. Qed.

(** The next call is answered: it falls in a range without failure. *)
Ltac answered Hf w :=
  match goal with
  | |- context [if fault providers ?n then _ else _] =>
      let E := fresh "E" in
      assert (E : fault providers n = false)
        by (replace n with (length (trace w) + (n - length (trace w)))
              by lia;
            apply Hf; simpl; lia);
      rewrite E; clear E; simpl
  end.

(** A first start-up in which no call fails, on a missing or empty index. *)
Lemma initialize_fresh_run (self : Engine) (w : World) :
  let name := index_name self in
  let batches := windows (documents_of (files w)) batch_size in
  let created :=
    match pinecone w !! name with
    | Some _ => []
    | None => [create_call self]
    end in
  from_option size 0 (pinecone w !! name) = 0 ->
  no_fault (length (trace w))
    (length created + 3 + length (calls_of (connected self) name batches)) ->
  initialize self w
  = (Ok tt, connected self,
     world_after w name (upsert_batches (connected self) ∅ batches)
       ([ListIndexes] ++ created
        ++ [ConnectIndex name; DescribeIndexStats name]
        ++ calls_of (connected self) name batches)).
Proof.
  intros name batches created Hempty Hnf.
  subst name created batches.
  assert (Hf : forall i,
             i < length (match pinecone w !! index_name self with
                         | Some _ => []
                         | None => [create_call self]
                         end) + 3
                 + length (calls_of (connected self) (index_name self)
                             (windows (documents_of (files w)) batch_size)) ->
             fault providers (length (trace w) + i) = false)
    by exact Hnf.
  clear Hnf.
  unfold initialize, pc_list_indexes, pc_create_index, pc_Index,
    index_describe_index_stats, the_index, records_of, bind, get, ret, call.
  simpl.
  destruct (pinecone w !! index_name self) as [recs|] eqn:Hrecs.
  - (* the index exists and is empty *)
    simpl in Hempty, Hf. apply map_size_empty_iff in Hempty. subst recs.
    assert (Hin : index_name self ∈ elements (dom (pinecone w))).
    { apply elem_of_elements, elem_of_dom. eauto. }
    answered Hf w.
    rewrite (bool_decide_eq_true_2 _ Hin). simpl.
    rewrite !length_app. simpl. answered Hf w.
    rewrite !length_app. simpl. answered Hf w.
    rewrite Hrecs. simpl.
    rewrite !log_log.
    rewrite (index_documents_ok (connected self) (index_name self) eq_refl
               _ ∅).
    + unfold world_after. simpl. rewrite <- !app_assoc. reflexivity.
    + exact Hrecs.
    + intros i Hi. simpl. rewrite !length_app. simpl.
      rewrite <- !Nat.add_assoc. apply Hf.
      rewrite calls_of_length.
      rewrite windows_concat by (unfold batch_size; lia).
      simpl in Hi. lia.
  - (* the index is missing: it is created *)
    simpl in Hf.
    assert (Hin : index_name self ∉ elements (dom (pinecone w))).
    { rewrite elem_of_elements, elem_of_dom. rewrite Hrecs.
      intros [? ?]. discriminate. }
    answered Hf w.
    rewrite (bool_decide_eq_false_2 _ Hin). simpl.
    rewrite !length_app. simpl. answered Hf w.
    rewrite Hrecs. simpl.
    rewrite !length_app. simpl. answered Hf w.
    rewrite !length_app. simpl. answered Hf w.
    rewrite lookup_insert_eq. simpl.
    rewrite (index_documents_ok (connected self) (index_name self) eq_refl
               _ ∅).
    + unfold world_after. simpl.
      rewrite insert_insert_eq. rewrite <- !app_assoc. reflexivity.
    + simpl. apply lookup_insert_eq.
    + intros i Hi. simpl. rewrite !length_app. simpl.
      rewrite <- !Nat.add_assoc. apply Hf.
      rewrite calls_of_length.
      rewrite windows_concat by (unfold batch_size; lia).
      simpl in Hi. lia.
Qed.

Lemma upsert_batches_nonempty (self : Engine) (recs : gmap string Vector)
    (batches : list (list Document)) (b : list Document) (d : Document) :
  b ∈ batches -> d ∈ b -> size (upsert_batches self recs batches) <> 0.
Proof.
  intros Hb Hd Hsize. apply map_size_empty_iff in Hsize.
  destruct (holds_id_upsert_batches self recs batches b d Hb Hd)
    as (v & Hv & _).
  rewrite Hsize, lookup_empty in Hv. discriminate.
Qed.

Lemma windows_head {A : Type} (xs : list A) (k : nat) :
  0 < k -> xs <> [] ->
  exists b x, windows xs k !! 0 = Some b /\ x ∈ b.
Proof.
  intros Hk Hxs.
  destruct (windows xs k) as [|b bs] eqn:E.
  - now apply windows_nonempty in E.
  - assert (Hb : b ∈ windows xs k) by (rewrite E; left).
    apply windows_bound in Hb; [| exact Hk].
    destruct b as [|x b]; [simpl in Hb; lia |].
    exists (x :: b), x. split; [reflexivity | left].
Qed.

(** X12: a first start-up in which no call fails creates the engine's index
    exactly when it is missing (with the engine's dimension, cosine metric,
    aws / us-east-1), connects, finds no record and indexes the corpus:
    the engine is left connected and, the file names being distinct, the
    index holds the record of every document and as many records as there
    are documents. *)
Theorem initialize_first_start (self : Engine) (w : World) :
  let name := index_name self in
  let documents := documents_of (files w) in
  let batches := windows documents batch_size in
  let created :=
    match pinecone w !! name with
    | Some _ => []
    | None => [create_call self]
    end in
  from_option size 0 (pinecone w !! name) = 0 ->
  NoDup (files w).*1 ->
  no_fault (length (trace w))
    (length created + 3 + length (calls_of (connected self) name batches)) ->
  exists self1 w1 recs1,
    initialize self w = (Ok tt, self1, w1)
    /\ index self1 = Some name
    /\ trace w1
       = trace w ++ [ListIndexes] ++ created
         ++ [ConnectIndex name; DescribeIndexStats name]
         ++ calls_of (connected self) name batches
    /\ pinecone w1 !! name = Some recs1
    /\ size recs1 = length documents
    /\ (forall d, d ∈ documents ->
          recs1 !! doc_id d = Some (vector_of (connected self) d)).
Proof.
  intros name documents batches created Hempty Hnames Hnf.
  pose proof (documents_of_NoDup (files w) Hnames) as Hnd.
  assert (Hcat : concat batches = documents)
    by (apply windows_concat; unfold batch_size; lia).
  subst name documents batches created.
  eexists _, _, _.
  split; [now apply initialize_fresh_run |].
  split; [reflexivity |]. split; [reflexivity |].
  split; [apply lookup_insert_eq |]. split.
  - rewrite upsert_batches_concat, Hcat.
    rewrite upsert_records_size; [apply length_fmap |].
    now rewrite <- list_fmap_compose.
  - intros d Hd. rewrite upsert_batches_concat, Hcat.
    apply (upsert_records_lookup ∅ _ (vector_of (connected self) d)).
    + now rewrite <- list_fmap_compose.
    + now apply list_elem_of_fmap_2.
Qed.

(** X13: start-up is idempotent once something was indexed: after a first
    start-up without failure over a corpus with at least one document, a
    second start-up of the connected engine makes no embedding call and no
    upsert, whatever fails then, and leaves the store as it was. *)
Theorem initialize_again_skips (self : Engine) (w : World) :
  let name := index_name self in
  let batches := windows (documents_of (files w)) batch_size in
  let created :=
    match pinecone w !! name with
    | Some _ => []
    | None => [create_call self]
    end in
  from_option size 0 (pinecone w !! name) = 0 ->
  documents_of (files w) <> [] ->
  no_fault (length (trace w))
    (length created + 3 + length (calls_of (connected self) name batches)) ->
  exists self1 w1 r2 self2 w2 calls,
    initialize self w = (Ok tt, self1, w1)
    /\ initialize self1 w1 = (r2, self2, w2)
    /\ pinecone w2 = pinecone w1
    /\ trace w2 = trace w1 ++ calls
    /\ Forall (fun c => indexing_work c = false) calls.
Proof.
  intros name batches created Hempty Hdocs Hnf.
  destruct (windows_head (documents_of (files w)) batch_size)
    as (b & d & Hb & Hd); [unfold batch_size; lia | exact Hdocs |].
  rewrite (initialize_fresh_run self w Hempty Hnf).
  destruct (initialize_guard (connected self)
              (world_after w name (upsert_batches (connected self) ∅ batches)
                 ([ListIndexes] ++ created
                  ++ [ConnectIndex name; DescribeIndexStats name]
                  ++ calls_of (connected self) name batches))
              (upsert_batches (connected self) ∅ batches))
    as (r2 & s2 & k & Hrun).
  - apply lookup_insert_eq.
  - apply (upsert_batches_nonempty _ _ _ b d); [| exact Hd].
    apply list_elem_of_lookup. eauto.
  - eexists _, _, r2, s2, _, _. split; [reflexivity |].
    split; [exact Hrun |]. split; [reflexivity |].
    split; [reflexivity |]. apply guard_calls_no_work.
Qed.

(** X14: a failed indexing run is not repaired by a restart: when the first
    failing call of a run falls in a batch [n] after the first one, the next
    start-up finds records from the batches before [n], so it makes no
    embedding call and no upsert, whatever fails then; the index keeps
    exactly what those batches upserted and, for an index that was empty and
    files with distinct names, no document of batch [n] has a record. *)
Theorem restart_keeps_truncated_index (self : Engine) (w : World)
    (recs : gmap string Vector) (n j : nat) (batch : list Document) :
  let name := index_name self in
  let batches := windows (documents_of (files w)) batch_size in
  let before := calls_of self name (take n batches) in
  index self = Some name ->
  pinecone w !! name = Some recs ->
  batches !! n = Some batch ->
  0 < n ->
  j <= length batch ->
  no_fault (length (trace w)) (length before + j) ->
  fault providers (length (trace w) + length before + j) = true ->
  exists e w1 r2 self2 w2 recs2 calls,
    index_documents self w = (Raise e, w1)
    /\ initialize self w1 = (r2, self2, w2)
    /\ pinecone w2 !! name = Some recs2
    /\ recs2 = upsert_batches self recs (take n batches)
    /\ trace w2 = trace w1 ++ calls
    /\ Forall (fun c => indexing_work c = false) calls
    /\ (recs = ∅ -> NoDup (files w).*1 ->
        forall d, d ∈ batch -> recs2 !! doc_id d = None).
Proof.
  intros name batches before Hidx Hrecs Hn Hpos Hj Hnf Hf.
  assert (Hk : 0 < batch_size) by (unfold batch_size; lia).
  assert (H0 : exists b0 d0, batches !! 0 = Some b0 /\ d0 ∈ b0).
  { apply windows_head; [exact Hk |]. intros E.
    unfold batches in Hn. rewrite E, windows_nil in Hn by exact Hk.
    discriminate. }
  destruct H0 as (b0 & d0 & Hb0 & Hd0).
  rewrite (index_documents_loop self w).
  rewrite (index_batches_fault self name Hidx _ n j batch w recs);
    try assumption.
  destruct (initialize_guard self
              (world_after w name (upsert_batches self recs (take n batches))
                 (before ++ take (S j) (batch_calls self name batch)))
              (upsert_batches self recs (take n batches)))
    as (r2 & s2 & k & Hrun).
  - apply lookup_insert_eq.
  - apply (upsert_batches_nonempty _ _ _ b0 d0); [| exact Hd0].
    apply list_elem_of_lookup. exists 0.
    rewrite lookup_take_lt by exact Hpos. exact Hb0.
  - eexists _, _, r2, s2, _, _, _. split; [reflexivity |].
    split; [exact Hrun |]. split; [apply lookup_insert_eq |].
    split; [reflexivity |]. split; [reflexivity |].
    split; [apply guard_calls_no_work |].
    intros -> Hnames d Hd.
    pose proof (documents_of_NoDup (files w) Hnames) as Hnd.
    rewrite <- (windows_concat (documents_of (files w)) batch_size Hk) in Hnd.
    fold batches in Hnd.
    rewrite <- (take_drop_middle batches n batch Hn) in Hnd.
    rewrite concat_app, fmap_app in Hnd.
    apply NoDup_app in Hnd as (_ & Hdisj & _).
    rewrite upsert_batches_concat, upsert_records_lookup_other;
      [apply lookup_empty |].
    rewrite <- list_fmap_compose. intros Hin.
    apply (Hdisj _ Hin). simpl. rewrite fmap_app.
    apply elem_of_app. left. now apply list_elem_of_fmap_2.
Qed.

End initialize_more.

(** ** Queries, whatever fails *)

Section query_more.

(** The outcomes of a query, case by case. *)
Lemma query_cases (self : Engine) (user_query : string) (w : World) :
  let e := EmbeddingsCreate (embedding_model self) user_query in
  (exists err, query self user_query w = (Raise err, log [e] w))
  \/ (exists handle err vector,
        index self = Some handle
        /\ query self user_query w
           = (Raise err, log [e; QueryIndex handle vector default_top_k true] w))
  \/ (exists handle recs,
        index self = Some handle
        /\ pinecone w !! handle = Some recs
        /\ exists err,
             query self user_query w
             = (Raise err,
                log [e; QueryIndex handle
                          (embedding providers (embedding_model self)
                             user_query) default_top_k true;
                     ChatCompletionsCreate (llm_model self)
                       (chat_messages
                          (build_prompt user_query
                             (build_context
                                (chunk_of_match
                                   <$> matches_for self user_query recs))))
                       (7 # 10)%Q 500] w))
  \/ (exists handle recs,
        index self = Some handle
        /\ pinecone w !! handle = Some recs
        /\ no_fault (length (trace w)) 3).
Proof.
  intros e. subst e.
  unfold query, retrieve_relevant_chunks, generate_response, get_embedding,
    embeddings_create, chat_completions_create, the_index, index_query,
    records_of, bind, ret, raise, call.
  destruct (fault providers (length (trace w))) eqn:F0; simpl.
  { left. eexists. reflexivity. }
  destruct (index self) as [hd|]; simpl.
  2:{ left. eexists. reflexivity. }
  rewrite length_app. simpl.
  destruct (fault providers (length (trace w) + 1)) eqn:F1; simpl.
  { right. left. eexists _, _, _. split; [reflexivity |].
    rewrite log_log. reflexivity. }
  destruct (pinecone w !! hd) as [recs|] eqn:Hrecs; simpl.
  2:{ right. left. eexists _, _, _. split; [reflexivity |].
      rewrite log_log. reflexivity. }
  rewrite !length_app. simpl.
  destruct (fault providers (length (trace w) + 1 + 1)) eqn:F2; simpl.
  { right. right. left. exists hd, recs. split; [reflexivity |].
    split; [exact Hrecs |]. eexists. rewrite !log_log. reflexivity. }
  right. right. right. exists hd, recs. split; [reflexivity |].
  split; [exact Hrecs |]. intros i Hi.
  destruct i as [|[|[|i]]]; try lia.
  - now rewrite Nat.add_0_r.
  - exact F1.
  - now replace (length (trace w) + 2) with (length (trace w) + 1 + 1) by lia.
Qed.


(** X16: a query on an engine that [initialize] has not connected requests
    the embedding of the question and then raises AttributeError: the store
    and the language model are never called. *)
Theorem query_unconnected (self : Engine) (user_query : string) (w : World) :
  index self = None ->
  fault providers (length (trace w)) = false ->
  exists msg,
    query self user_query w
    = (Raise (AttributeError msg),
       log [EmbeddingsCreate (embedding_model self) user_query] w).
Proof.
  intros Hidx Hf.
  unfold query, retrieve_relevant_chunks, get_embedding, embeddings_create,
    the_index, bind, ret, raise, call.
  rewrite Hf, Hidx. simpl. eexists. reflexivity.
Qed.

Lemma list_of_set_length (xs : list string) :
  length (list_of_set xs) <= length xs.
Proof.
  apply submseteq_length, NoDup_submseteq; [apply list_of_set_NoDup |].
  intros x. now rewrite list_of_set_elem.
Qed.

(** X17: whenever a query returns an answer, the engine was connected, none
    of the three calls failed, the answer is the model's completion of the
    prompt built from the question and the retrieved chunks, and the sources
    are at most three, without repetition. *)
Theorem query_answer (self : Engine) (user_query : string) (w w1 : World)
    (response : string) (sources : list string) :
  query self user_query w = (Ok (response, sources), w1) ->
  exists handle recs chunks,
    index self = Some handle
    /\ pinecone w !! handle = Some recs
    /\ no_fault (length (trace w)) 3
    /\ retrieve_relevant_chunks self user_query default_top_k w
       = (Ok chunks,
          log [EmbeddingsCreate (embedding_model self) user_query;
               QueryIndex handle
                 (embedding providers (embedding_model self) user_query)
                 default_top_k true] w)
    /\ response
       = completion providers (llm_model self)
           (chat_messages (build_prompt user_query (build_context chunks)))
    /\ sources = list_of_set (chunk_source <$> chunks)
    /\ NoDup sources
    /\ length sources <= 3.
Proof.
  intros Hrun.
  destruct (query_cases self user_query w)
    as [(err & E)
       |[(hd & err & v & _ & E)
        |[(hd & recs & _ & _ & err & E)
         |(hd & recs & Hidx & Hrecs & Hnf)]]];
    try (rewrite E in Hrun; discriminate).
  rewrite (query_run self hd Hidx user_query w recs Hrecs Hnf) in Hrun.
  injection Hrun as <- <- <-.
  exists hd, recs, (chunk_of_match <$> matches_for self user_query recs).
  split; [exact Hidx |]. split; [exact Hrecs |]. split; [exact Hnf |].
  split.
  { apply (retrieve_run self hd Hidx user_query default_top_k w recs Hrecs).
    eapply no_fault_weaken; [| exact Hnf]. lia. }
  split; [reflexivity |]. split; [reflexivity |].
  split; [apply list_of_set_NoDup |].
  etransitivity; [apply list_of_set_length |].
  rewrite !length_fmap. unfold matches_for.
  rewrite length_take. unfold default_top_k. lia.
Qed.

End query_more.

(** ** The application: start-up and the chat endpoint *)

Section main_more.

(** A failing call in [H] contradicts a normal return. *)
Ltac answered_in H :=
  match type of H with
  | context [if fault providers ?n then _ else _] =>
      destruct (fault providers n); simpl in H; [discriminate |]
  end.

(** What a normal return of [initialize] tells. *)
Lemma initialize_Ok_inv (self s : Engine) (w w1 : World) :
  initialize self w = (Ok tt, s, w1) ->
  s = connected self /\ is_Some (pinecone w1 !! index_name self).
Proof.
  intros H.
  unfold initialize, pc_list_indexes, pc_create_index, pc_Index,
    index_describe_index_stats, the_index, records_of, bind, get, ret, call
    in H.
  simpl in H. answered_in H.
  destruct (bool_decide
              (index_name self ∈ elements (dom (pinecone w)))) eqn:Hb;
    simpl in H.
  - apply bool_decide_eq_true in Hb.
    apply elem_of_elements, elem_of_dom in Hb as [recs Hrecs].
    answered_in H. answered_in H.
    rewrite Hrecs in H. simpl in H.
    fold (connected self) in H.
    destruct (size recs =? 0)%nat.
    + match type of H with
      | context [index_documents _ ?w'] =>
          destruct (index_documents_progress (connected self)
                      (index_name self) eq_refl w' recs Hrecs)
            as (r & m & k & Hrun)
      end.
      rewrite Hrun in H. injection H as -> <- <-.
      split; [reflexivity |]. cbn [pinecone world_after].
      rewrite lookup_insert_eq. eauto.
    + injection H as <- <-. split; [reflexivity |]. simpl. eauto.
  - answered_in H.
    destruct (pinecone w !! index_name self) as [recs|] eqn:Hrecs;
      simpl in H.
    + apply bool_decide_eq_false in Hb. exfalso. apply Hb.
      apply elem_of_elements, elem_of_dom. eauto.
    + answered_in H. answered_in H.
      rewrite lookup_insert_eq in H. simpl in H.
      rewrite map_size_empty in H. simpl in H.
      fold (connected self) in H.
      match type of H with
      | context [index_documents _ ?w'] =>
          destruct (index_documents_progress (connected self)
                      (index_name self) eq_refl w' ∅)
            as (r & m & k & Hrun); [apply lookup_insert_eq |]
      end.
      rewrite Hrun in H. injection H as -> <- <-.
      split; [reflexivity |]. cbn [pinecone world_after].
      rewrite lookup_insert_eq. eauto.
Qed.

(** X18: when start-up completes, the engine serving requests is connected:
    both keys were present and not empty in the environment, the global
    engine is set with [self.index] pointing to "acme-tech-chatbot", and
    that index exists in the store. *)
Theorem lifespan_ready (environ : gmap string string) (w w1 : World)
    (rag_engine : option Engine) :
  lifespan environ w = (Ok tt, rag_engine, w1) ->
  exists engine,
    rag_engine = Some engine
    /\ index engine = Some "acme-tech-chatbot"
    /\ is_Some (pinecone w1 !! "acme-tech-chatbot")
    /\ environ !! "PINECONE_API_KEY" = Some (pinecone_api_key engine)
    /\ pinecone_api_key engine <> ""
    /\ environ !! "OPENAI_API_KEY" = Some (openai_api_key engine)
    /\ openai_api_key engine <> "".
Proof.
  unfold lifespan, init. intros H.
  destruct (environ !! "PINECONE_API_KEY") as [[|c pk]|];
    try discriminate.
  destruct (environ !! "OPENAI_API_KEY") as [[|c' ok]|];
    try discriminate.
  match type of H with
  | context [initialize ?e w] =>
      destruct (initialize e w) as [[r s] w'] eqn:Hinit
  end.
  injection H as -> <- <-.
  apply initialize_Ok_inv in Hinit as [-> Hidx].
  eexists. split; [reflexivity |]. simpl in *.
  repeat split; try assumption; discriminate.
Qed.

(** X19: a key that is set but empty is rejected like a missing one:
    start-up raises ValueError before any call, the world is unchanged and
    the global engine stays unset; a bad Pinecone key is the one reported,
    whatever the OpenAI key. *)
Theorem lifespan_rejects_empty_keys (environ : gmap string string)
    (w : World) :
  unset_or_empty (environ !! "PINECONE_API_KEY")
  \/ unset_or_empty (environ !! "OPENAI_API_KEY") ->
  exists msg,
    lifespan environ w = (Raise (ValueError msg), None, w)
    /\ (unset_or_empty (environ !! "PINECONE_API_KEY") ->
        msg = "PINECONE_API_KEY not found in environment variables").
Proof.
  unfold lifespan, init, unset_or_empty. intros H.
  destruct (environ !! "PINECONE_API_KEY") as [[|c pk]|].
  - eexists. split; reflexivity.
  - destruct H as [[H|H]|H]; try discriminate.
    destruct (environ !! "OPENAI_API_KEY") as [[|c' ok]|].
    + eexists. split; [reflexivity |]. intros [?|?]; discriminate.
    + destruct H; discriminate.
    + eexists. split; [reflexivity |]. intros [?|?]; discriminate.
  - eexists. split; reflexivity.
Qed.

(** The outcome of a query, for its callers. *)
Lemma query_outcome (self : Engine) (user_query : string) (w : World) :
  exists r calls,
    query self user_query w = (r, log calls w)
    /\ length calls <= 3
    /\ (forall response sources,
          r = Ok (response, sources) -> length sources <= 3).
Proof.
  destruct (query_cases self user_query w)
    as [(err & ->)
       |[(hd & err & v & _ & ->)
        |[(hd & recs & _ & _ & err & ->)
         |(hd & recs & Hidx & Hrecs & Hnf)]]];
    try (eexists _, _; split; [reflexivity |];
         split; [simpl; lia | discriminate]).
  rewrite (query_run self hd Hidx user_query w recs Hrecs Hnf).
  eexists _, _. split; [reflexivity |]. split; [simpl; lia |].
  intros response sources H. injection H as _ <-.
  etransitivity; [apply list_of_set_length |].
  rewrite !length_fmap. unfold matches_for.
  rewrite length_take. unfold default_top_k. lia.
Qed.

(** X20: the chat endpoint answers every request without writing to the
    store: with no engine it replies 503 and makes no call; otherwise it
    makes at most the three calls of a query and replies with the answer
    and at most three sources when the query returns, and with 500 and the
    message of the exception when the query raises. *)
Theorem chat_replies (rag_engine : option Engine) (message : string)
    (w : World) :
  exists calls,
    (chat rag_engine message w).2 = log calls w
    /\ length calls <= 3
    /\ match (chat rag_engine message w).1 with
       | ChatResponse response sources =>
           exists engine,
             rag_engine = Some engine
             /\ query engine message w = (Ok (response, sources), log calls w)
             /\ length sources <= 3
       | HTTPException status_code detail =>
           status_code = 503%Z
           /\ detail = "RAG engine not initialized"
           /\ rag_engine = None /\ calls = []
           \/ status_code = 500%Z
              /\ exists engine err,
                   rag_engine = Some engine
                   /\ query engine message w = (Raise err, log calls w)
                   /\ detail
                      = "Error processing request: " +:+ str_of_exception err
       end.
Proof.
  destruct rag_engine as [engine|]; simpl.
  - destruct (query_outcome engine message w)
      as (r & calls & Hrun & Hlen & Hsrc).
    rewrite Hrun. exists calls.
    destruct r as [[response sources]|err]; simpl.
    + split; [reflexivity |]. split; [exact Hlen |].
      exists engine. split; [reflexivity |].
      split; [first [reflexivity | exact Hrun] |].
      now apply (Hsrc response).
    + split; [reflexivity |]. split; [exact Hlen |].
      right. split; [reflexivity |]. exists engine, err.
      split; [reflexivity |].
      split; [first [reflexivity | exact Hrun] | reflexivity].
  - exists []. rewrite log_nil. split; [reflexivity |].
    split; [simpl; lia |]. left. auto.
Qed.

End main_more.

End rag.

Arguments pinecone {Vec} w.
Arguments files {Vec} w.
Arguments trace {Vec} w.
Arguments fault {Vec Score} p n.
Arguments no_fault {Vec Score} providers from count.
Arguments world_after {Vec} w handle recs calls.
Arguments upsert_batches {Vec Score} providers self recs batches.
Arguments calls_of {Vec Score} providers self handle batches.
Arguments vector_of {Vec Score} providers self doc.
Arguments upserted_ids {Vec} calls.
Arguments holds_id {Vec} recs k.
Arguments vec_id {Vec} v.
Arguments index_documents {Vec Score} providers self w.
Arguments initialize {Vec Score} providers self w.
Arguments retrieve_relevant_chunks {Vec Score} providers self query top_k w.
Arguments query {Vec Score} providers self user_query w.
Arguments lifespan {Vec Score} providers environ w.
Arguments is_embedding_call {Vec} c.
Arguments is_upsert_call {Vec} c.
Arguments embedding {Vec Score} p model input.
Arguments ranking {Vec Score} p vector recs.
Arguments completion {Vec Score} p model messages.
Arguments upsert_records {Vec} recs vectors.
Arguments vec_metadata {Vec} v.
Arguments chunk_source {Score} c.
Arguments chunk_of_match {Score} m.
Arguments match_entry {Score} m.
Arguments build_context {Score} context_chunks.
Arguments batch_calls {Vec Score} providers self handle batch.
Arguments ListIndexes {Vec}.
Arguments CreateIndex {Vec} name dimension metric cloud region.
Arguments ConnectIndex {Vec} name.
Arguments DescribeIndexStats {Vec} index.
Arguments Upsert {Vec} index vectors.
Arguments QueryIndex {Vec} index vector top_k include_metadata.
Arguments EmbeddingsCreate {Vec} model input.
Arguments ChatCompletionsCreate {Vec} model messages temperature max_tokens.

Arguments log {Vec} cs w.
Arguments embedding_calls {Vec} self batch.
Arguments indexing_call {Vec} self handle c.
Arguments indexing_work {Vec} c.
Arguments guard_calls {Vec} self.
Arguments create_call {Vec} self.
Arguments query_call {Vec} c.
Arguments chat {Vec Score} providers str_of_exception rag_engine message w.

(** ** Indexing twice *)

Section reindexing.

Context {Vec Score : Type}.

(** C6: two indexing runs over the same corpus, with the already-indexed
    guard out of the way and whatever embeddings the provider returns each
    time, upsert the same ids, those of the documents in order; so the
    second run replaces records: the index has the same ids, and as many
    records, after it as before it. *)
Theorem reindexing_keeps_ids (first second : Providers Vec Score)
    (self : Engine) (handle : string) (w : World Vec)
    (recs : gmap string (Vector Vec)) :
  let documents := documents_of (files w) in
  let ncalls := length documents + length (windows documents batch_size) in
  index self = Some handle ->
  pinecone w !! handle = Some recs ->
  no_fault first (length (trace w)) ncalls ->
  no_fault second (length (trace w) + ncalls) ncalls ->
  exists w1 w2 recs1 recs2 calls1 calls2,
    index_documents first self w = (Ok tt, w1)
    /\ index_documents second self w1 = (Ok tt, w2)
    /\ trace w1 = trace w ++ calls1
    /\ trace w2 = trace w1 ++ calls2
    /\ upserted_ids calls1 = doc_id <$> documents
    /\ upserted_ids calls2 = upserted_ids calls1
    /\ pinecone w1 !! handle = Some recs1
    /\ pinecone w2 !! handle = Some recs2
    /\ dom recs2 = dom recs1
    /\ size recs2 = size recs1.
Proof.
  intros documents ncalls Hidx Hrecs Hnf1 Hnf2.
  set (batches := windows documents batch_size).
  set (recs1 := upsert_batches first self recs batches).
  set (calls1 := calls_of first self handle batches).
  set (w1 := world_after w handle recs1 calls1).
  set (recs2 := upsert_batches second self recs1 batches).
  set (calls2 := calls_of second self handle batches).
  assert (Hcat : concat batches = documents)
    by (apply windows_concat; unfold batch_size; lia).
  assert (Hlen1 : length calls1 = ncalls).
  { unfold calls1. rewrite calls_of_length, Hcat. reflexivity. }
  assert (Hrecs1 : pinecone w1 !! handle = Some recs1)
    by apply lookup_insert_eq.
  assert (Hdom : dom recs2 = dom recs1).
  { unfold recs2, recs1. rewrite !upsert_batches_dom.
    rewrite <- (assoc_L (∪)). now rewrite (idemp_L (∪)). }
  exists w1, (world_after w1 handle recs2 calls2), recs1, recs2, calls1, calls2.
  split; [now apply index_documents_ok |].
  split.
  { apply (index_documents_ok Vec Score second self handle Hidx w1 recs1 Hrecs1).
    cbn [trace files w1 world_after]. rewrite length_app, Hlen1. exact Hnf2. }
  split; [reflexivity |]. split; [reflexivity |].
  split; [unfold calls1; now rewrite upserted_ids_calls, Hcat |].
  split; [unfold calls1, calls2; now rewrite !upserted_ids_calls |].
  split; [exact Hrecs1 |].
  split; [apply lookup_insert_eq |].
  split; [exact Hdom |].
  now rewrite <- !size_dom, Hdom.
Qed.

End reindexing.

(** ** Concrete runs *)

(** C1, as stated, fails on a text made of one space: it is not empty, yet
    no segment is returned. *)
Lemma chunk_text_blank_text_no_segment :
  ~ (" " <> "" -> (0 < 512)%Z ->
     exists chunks,
       chunk_text " " 512 = Ok chunks
       /\ chunks <> []
       /\ carries_words " " 512 chunks).
Proof.
  intros H. destruct H as (chunks & Hrun & Hne & _); [discriminate | lia |].
  vm_compute in Hrun. congruence.
Qed.

Lemma chunk_text_partitions_witness :
  (0 < 2)%Z /\
  exists chunks,
    chunk_text "to be  or not to be " 2 = Ok chunks
    /\ carries_words "to be  or not to be " 2 chunks
    /\ (blank "to be  or not to be " = false -> chunks <> []).
Proof. split; [lia | apply (chunk_text_partitions "to be  or not to be " 2); lia]. Defined.

Example chunk_text_run :
  chunk_text "to be  or not to be " 2 = Ok ["to be"; "or not"; "to be"].
Proof. reflexivity. Qed.

Lemma chunk_text_full_segments_witness :
  Py.split "to be  or not to be " <> [] /\ (0 < 4)%Z /\
  exists chunks,
    chunk_text "to be  or not to be " 4 = Ok chunks
    /\ (forall j c, chunks !! j = Some c -> j + 1 < length chunks ->
          Z.of_nat (length (Py.split c)) = 4%Z)
    /\ Z.of_nat (length chunks)
       = ((Z.of_nat (length (Py.split "to be  or not to be ")) + 4 - 1) / 4)%Z
    /\ ((Z.of_nat (length chunks) - 1) * 4
          < Z.of_nat (length (Py.split "to be  or not to be "))
          <= Z.of_nat (length chunks) * 4)%Z.
Proof.
  assert (H : Py.split "to be  or not to be " <> [])
    by (vm_compute; discriminate).
  split; [exact H |]. split; [lia |].
  apply (chunk_text_full_segments "to be  or not to be " 4 H). lia.
Defined.

Lemma chunk_text_deterministic_witness :
  "to be" = "to be" /\ 2%Z = 2%Z /\ chunk_text "to be" 2 = chunk_text "to be" 2.
Proof.
  split; [reflexivity |]. split; [reflexivity |].
  apply (chunk_text_deterministic "to be" "to be" 2 2); reflexivity.
Defined.

(** Providers for the runs below: embeddings and scores are numbers, the
    store ranks its records in the order of their ids. *)
Definition ex_providers (failing : nat -> bool) : Providers nat nat :=
  {| fault := failing;
     embedding := fun _ text => String.length text;
     ranking := fun _ recs =>
       (fun kv => {| match_id := kv.1;
                     match_score := 0;
                     match_metadata := vec_metadata kv.2 |})
         <$> map_to_list recs;
     completion := fun _ _ => "I do not have enough information." |}.

Definition ex_index : string := "acme-tech-chatbot".

(** The engine once [initialize] has connected it. *)
Definition ex_engine : Engine :=
  {| pinecone_api_key := "pc-key";
     openai_api_key := "sk-key";
     index_name := ex_index;
     index := Some ex_index;
     embedding_model := "text-embedding-3-small";
     embedding_dimension := 1536;
     llm_model := "gpt-3.5-turbo" |}.

Definition ex_record (source : string) (i : nat) (text : string) : Vector nat :=
  {| vec_id := source +:+ "_" +:+ Py.str_of_nat i;
     vec_values := String.length text;
     vec_metadata := {| meta_text := text;
                        meta_source := source;
                        meta_chunk_index := i |} |}.

Definition ex_records : gmap string (Vector nat) :=
  upsert_records ∅
    [ex_record "faq.md" 0 "refunds take five days";
     ex_record "faq.md" 1 "support answers within a day";
     ex_record "policy.txt" 0 "remote work is allowed"].

Definition ex_world (recs : gmap string (Vector nat))
    (listing : list (string * string)) : World nat :=
  {| pinecone := {[ ex_index := recs ]}; files := listing; trace := [] |}.

Definition ex_corpus : list (string * string) :=
  [("faq.md", "refunds take five days"); ("notes.bin", "skipped");
   ("policy.txt", "remote work is allowed")].

Lemma initialize_populated_witness :
  pinecone (ex_world ex_records ex_corpus) !! index_name ex_engine
    = Some ex_records
  /\ 0 < size ex_records
  /\ let '(r, self1, w1) :=
       initialize (ex_providers (fun _ => false)) ex_engine
         (ex_world ex_records ex_corpus) in
     pinecone w1 = pinecone (ex_world ex_records ex_corpus)
     /\ (exists calls,
           trace w1 = trace (ex_world ex_records ex_corpus) ++ calls
           /\ Forall (fun c => is_embedding_call c = false
                               /\ is_upsert_call c = false) calls)
     /\ (no_fault (ex_providers (fun _ => false))
           (length (trace (ex_world ex_records ex_corpus))) 3 ->
         r = Ok tt
         /\ index self1 = Some (index_name ex_engine)
         /\ trace w1
            = trace (ex_world ex_records ex_corpus)
              ++ [ListIndexes; ConnectIndex (index_name ex_engine);
                  DescribeIndexStats (index_name ex_engine)]).
Proof.
  assert (H1 : pinecone (ex_world ex_records ex_corpus) !! index_name ex_engine
               = Some ex_records) by apply lookup_singleton_eq.
  assert (H2 : 0 < size ex_records) by (vm_compute; lia).
  split; [exact H1 |]. split; [exact H2 |].
  exact (initialize_populated_skips_indexing nat nat
           (ex_providers (fun _ => false)) ex_engine
           (ex_world ex_records ex_corpus) ex_records H1 H2).
Defined.

Lemma no_fault_never (from count : nat) :
  no_fault (ex_providers (fun _ => false)) from count.
Proof. intros i _. reflexivity. Qed.

Lemma query_sources_witness :
  index ex_engine = Some ex_index
  /\ pinecone (ex_world ex_records ex_corpus) !! ex_index = Some ex_records
  /\ no_fault (ex_providers (fun _ => false))
       (length (trace (ex_world ex_records ex_corpus))) 3
  /\ exists chunks response sources w1 w2 prompt,
       retrieve_relevant_chunks (ex_providers (fun _ => false)) ex_engine
         "how long do refunds take" default_top_k
         (ex_world ex_records ex_corpus) = (Ok chunks, w1)
       /\ query (ex_providers (fun _ => false)) ex_engine
            "how long do refunds take" (ex_world ex_records ex_corpus)
          = (Ok (response, sources), w2)
       /\ NoDup sources
       /\ (forall s, s ∈ sources
                     <-> exists c, c ∈ chunks /\ chunk_source c = s)
       /\ trace w2
          = trace w1 ++ [ChatCompletionsCreate (llm_model ex_engine)
                           (chat_messages prompt) (7 # 10)%Q 500]
       /\ prompt = build_prompt "how long do refunds take"
                     (build_context chunks)
       /\ (chunks = [] -> sources = [] /\ build_context chunks = "").
Proof.
  assert (H2 : pinecone (ex_world ex_records ex_corpus) !! ex_index
               = Some ex_records) by apply lookup_singleton_eq.
  split; [reflexivity |]. split; [exact H2 |].
  split; [apply no_fault_never |].
  exact (query_sources_distinct nat nat (ex_providers (fun _ => false))
           ex_engine ex_index "how long do refunds take"
           (ex_world ex_records ex_corpus) ex_records
           eq_refl H2 (no_fault_never _ _)).
Defined.

Example query_sources_run :
  (query (ex_providers (fun _ => false)) ex_engine "how long do refunds take"
     (ex_world ex_records ex_corpus)).1
  = Ok ("I do not have enough information.", ["faq.md"; "policy.txt"]).
Proof. vm_compute. reflexivity. Qed.

Lemma query_retrieves_witness :
  index ex_engine = Some ex_index
  /\ pinecone (ex_world ex_records ex_corpus) !! ex_index = Some ex_records
  /\ no_fault (ex_providers (fun _ => false))
       (length (trace (ex_world ex_records ex_corpus))) 3
  /\ exists matches chunks response sources w1 w2 context,
       retrieve_relevant_chunks (ex_providers (fun _ => false)) ex_engine
         "how long do refunds take" default_top_k
         (ex_world ex_records ex_corpus) = (Ok chunks, w1)
       /\ query (ex_providers (fun _ => false)) ex_engine
            "how long do refunds take" (ex_world ex_records ex_corpus)
          = (Ok (response, sources), w2)
       /\ trace w2
          = trace (ex_world ex_records ex_corpus)
            ++ [EmbeddingsCreate (embedding_model ex_engine)
                  "how long do refunds take";
                QueryIndex ex_index
                  (embedding (ex_providers (fun _ => false))
                     (embedding_model ex_engine) "how long do refunds take")
                  3 true;
                ChatCompletionsCreate (llm_model ex_engine)
                  (chat_messages
                     (build_prompt "how long do refunds take" context))
                  (7 # 10)%Q 500]
       /\ matches
          = take 3 (ranking (ex_providers (fun _ => false))
                      (embedding (ex_providers (fun _ => false))
                         (embedding_model ex_engine)
                         "how long do refunds take") ex_records)
       /\ chunks = chunk_of_match <$> matches
       /\ length chunks <= 3
       /\ context = Py.join (nl +:+ nl) (match_entry <$> matches).
Proof.
  assert (H2 : pinecone (ex_world ex_records ex_corpus) !! ex_index
               = Some ex_records) by apply lookup_singleton_eq.
  split; [reflexivity |]. split; [exact H2 |].
  split; [apply no_fault_never |].
  exact (query_retrieves_top_3 nat nat (ex_providers (fun _ => false))
           ex_engine ex_index "how long do refunds take"
           (ex_world ex_records ex_corpus) ex_records
           eq_refl H2 (no_fault_never _ _)).
Defined.

Lemma lifespan_missing_credentials_witness :
  (({[ "OPENAI_API_KEY" := "sk-key" ]} : gmap string string)
     !! "PINECONE_API_KEY" = None
   \/ ({[ "OPENAI_API_KEY" := "sk-key" ]} : gmap string string)
        !! "OPENAI_API_KEY" = None)
  /\ exists msg,
       init {[ "OPENAI_API_KEY" := "sk-key" ]} = Raise (ValueError msg)
       /\ lifespan (ex_providers (fun _ => false))
            {[ "OPENAI_API_KEY" := "sk-key" ]} (ex_world ∅ ex_corpus)
          = (Raise (ValueError msg), None, ex_world ∅ ex_corpus).
Proof.
  assert (H : ({[ "OPENAI_API_KEY" := "sk-key" ]} : gmap string string)
                !! "PINECONE_API_KEY" = None
              \/ ({[ "OPENAI_API_KEY" := "sk-key" ]} : gmap string string)
                   !! "OPENAI_API_KEY" = None)
    by (left; vm_compute; reflexivity).
  split; [exact H |].
  exact (lifespan_missing_credentials nat nat (ex_providers (fun _ => false))
           {[ "OPENAI_API_KEY" := "sk-key" ]} (ex_world ∅ ex_corpus) H).
Defined.

(** A corpus of 101 one-word files: 101 documents, hence two batches. *)
Definition ex_many_files : list (string * string) :=
  (fun i => ("doc" +:+ Py.str_of_nat i +:+ ".txt", "hello")) <$> seq 0 101.

Definition ex_last_batch : list Document :=
  [ {| doc_id := "doc100.txt_0";
       doc_text := "hello";
       doc_source := "doc100.txt";
       doc_chunk_index := 0 |} ].

(** The provider fails on call 101: the first embedding of the second batch. *)
Definition ex_failing : Providers nat nat :=
  ex_providers (fun n => Nat.eqb n 101).

Lemma ex_first_batch_calls :
  length (calls_of ex_failing ex_engine ex_index
            (take 1 (windows (documents_of (files (ex_world ∅ ex_many_files)))
                       batch_size)))
  = 101.
Proof. vm_compute. reflexivity. Qed.

Lemma index_documents_aborts_witness :
  index ex_engine = Some ex_index
  /\ pinecone (ex_world ∅ ex_many_files) !! ex_index = Some ∅
  /\ windows (documents_of (files (ex_world ∅ ex_many_files))) batch_size !! 1
     = Some ex_last_batch
  /\ 0 <= length ex_last_batch
  /\ no_fault ex_failing (length (trace (ex_world ∅ ex_many_files)))
       (length (calls_of ex_failing ex_engine ex_index
                  (take 1 (windows
                             (documents_of (files (ex_world ∅ ex_many_files)))
                             batch_size))) + 0)
  /\ fault ex_failing
       (length (trace (ex_world ∅ ex_many_files))
        + length (calls_of ex_failing ex_engine ex_index
                    (take 1 (windows
                               (documents_of (files (ex_world ∅ ex_many_files)))
                               batch_size))) + 0) = true
  /\ exists e w1 recs1,
       index_documents ex_failing ex_engine (ex_world ∅ ex_many_files)
       = (Raise e, w1)
       /\ pinecone w1
          = <[ex_index := recs1]> (pinecone (ex_world ∅ ex_many_files))
       /\ recs1
          = upsert_batches ex_failing ex_engine ∅
              (take 1 (windows
                         (documents_of (files (ex_world ∅ ex_many_files)))
                         batch_size))
       /\ (forall m b doc, m < 1 ->
             windows (documents_of (files (ex_world ∅ ex_many_files)))
               batch_size !! m = Some b ->
             doc ∈ b -> holds_id recs1 (doc_id doc))
       /\ (NoDup (files (ex_world ∅ ex_many_files)).*1 ->
           forall m b doc, m < 1 ->
             windows (documents_of (files (ex_world ∅ ex_many_files)))
               batch_size !! m = Some b ->
             doc ∈ b ->
             recs1 !! doc_id doc = Some (vector_of ex_failing ex_engine doc))
       /\ trace w1
          = trace (ex_world ∅ ex_many_files)
            ++ calls_of ex_failing ex_engine ex_index
                 (take 1 (windows
                            (documents_of (files (ex_world ∅ ex_many_files)))
                            batch_size))
            ++ take 1 (batch_calls ex_failing ex_engine ex_index ex_last_batch).
Proof.
  assert (H2 : pinecone (ex_world ∅ ex_many_files) !! ex_index = Some ∅)
    by apply lookup_singleton_eq.
  assert (H3 : windows (documents_of (files (ex_world ∅ ex_many_files)))
                 batch_size !! 1 = Some ex_last_batch)
    by (vm_compute; reflexivity).
  assert (H4 : 0 <= length ex_last_batch) by (simpl; lia).
  assert (H5 : no_fault ex_failing (length (trace (ex_world ∅ ex_many_files)))
                 (length (calls_of ex_failing ex_engine ex_index
                            (take 1 (windows
                               (documents_of (files (ex_world ∅ ex_many_files)))
                               batch_size))) + 0)).
  { rewrite ex_first_batch_calls. intros i Hi.
    change (Nat.eqb (0 + i) 101 = false). apply Nat.eqb_neq. lia. }
  assert (H6 : fault ex_failing
                 (length (trace (ex_world ∅ ex_many_files))
                  + length (calls_of ex_failing ex_engine ex_index
                      (take 1 (windows
                         (documents_of (files (ex_world ∅ ex_many_files)))
                         batch_size))) + 0) = true)
    by (rewrite ex_first_batch_calls; reflexivity).
  split; [reflexivity |]. split; [exact H2 |]. split; [exact H3 |].
  split; [exact H4 |]. split; [exact H5 |]. split; [exact H6 |].
  exact (index_documents_aborts_at_failure nat nat ex_failing ex_engine
           ex_index (ex_world ∅ ex_many_files) ∅ 1 0 ex_last_batch
           eq_refl H2 H3 H4 H5 H6).
Defined.

Example index_documents_aborts_run :
  let '(r, w1) :=
    index_documents ex_failing ex_engine (ex_world ∅ ex_many_files) in
  r = Raise (ProviderError 101)
  /\ length (trace w1) = 102
  /\ size <$> (pinecone w1 !! ex_index) = Some 100.
Proof. vm_compute. auto. Qed.

Lemma reindexing_keeps_ids_witness :
  index ex_engine = Some ex_index
  /\ pinecone (ex_world ∅ ex_corpus) !! ex_index = Some ∅
  /\ no_fault (ex_providers (fun _ => false))
       (length (trace (ex_world ∅ ex_corpus)))
       (length (documents_of (files (ex_world ∅ ex_corpus)))
        + length (windows (documents_of (files (ex_world ∅ ex_corpus)))
                    batch_size))
  /\ no_fault (ex_providers (fun _ => false))
       (length (trace (ex_world ∅ ex_corpus))
        + (length (documents_of (files (ex_world ∅ ex_corpus)))
           + length (windows (documents_of (files (ex_world ∅ ex_corpus)))
                       batch_size)))
       (length (documents_of (files (ex_world ∅ ex_corpus)))
        + length (windows (documents_of (files (ex_world ∅ ex_corpus)))
                    batch_size))
  /\ exists w1 w2 recs1 recs2 calls1 calls2,
       index_documents (ex_providers (fun _ => false)) ex_engine
         (ex_world ∅ ex_corpus) = (Ok tt, w1)
       /\ index_documents (ex_providers (fun _ => false)) ex_engine w1
          = (Ok tt, w2)
       /\ trace w1 = trace (ex_world ∅ ex_corpus) ++ calls1
       /\ trace w2 = trace w1 ++ calls2
       /\ upserted_ids calls1
          = doc_id <$> documents_of (files (ex_world ∅ ex_corpus))
       /\ upserted_ids calls2 = upserted_ids calls1
       /\ pinecone w1 !! ex_index = Some recs1
       /\ pinecone w2 !! ex_index = Some recs2
       /\ dom recs2 = dom recs1
       /\ size recs2 = size recs1.
Proof.
  assert (H2 : pinecone (ex_world ∅ ex_corpus) !! ex_index = Some ∅)
    by apply lookup_singleton_eq.
  split; [reflexivity |]. split; [exact H2 |].
  split; [apply no_fault_never |]. split; [apply no_fault_never |].
  exact (reindexing_keeps_ids (ex_providers (fun _ => false))
           (ex_providers (fun _ => false)) ex_engine ex_index
           (ex_world ∅ ex_corpus) ∅ eq_refl H2
           (no_fault_never _ _) (no_fault_never _ _)).
Defined.

(** A document of 600 words. *)
Definition ex_policy : string := Py.join " " (replicate 600 "shall").

Lemma policy_document_witness :
  length (Py.split ex_policy) = 600
  /\ files (ex_world ∅ [("policy.txt", ex_policy)])
     = [("policy.txt", ex_policy)]
  /\ index ex_engine = Some ex_index
  /\ pinecone (ex_world ∅ [("policy.txt", ex_policy)]) !! ex_index = Some ∅
  /\ no_fault (ex_providers (fun _ => false))
       (length (trace (ex_world ∅ [("policy.txt", ex_policy)]))) 3
  /\ exists c0 c1 documents w1,
       chunk_text ex_policy default_chunk_size = Ok [c0; c1]
       /\ length (Py.split c0) = 512
       /\ length (Py.split c1) = 88
       /\ read_documents (files (ex_world ∅ [("policy.txt", ex_policy)])) []
          = Ok documents
       /\ doc_id <$> documents = ["policy.txt_0"; "policy.txt_1"]
       /\ doc_text <$> documents = [c0; c1]
       /\ index_documents (ex_providers (fun _ => false)) ex_engine
            (ex_world ∅ [("policy.txt", ex_policy)]) = (Ok tt, w1)
       /\ upserted_ids
            (drop (length (trace (ex_world ∅ [("policy.txt", ex_policy)])))
               (trace w1))
          = ["policy.txt_0"; "policy.txt_1"].
Proof.
  assert (H1 : length (Py.split ex_policy) = 600) by (vm_compute; reflexivity).
  assert (H4 : pinecone (ex_world ∅ [("policy.txt", ex_policy)]) !! ex_index
               = Some ∅) by apply lookup_singleton_eq.
  split; [exact H1 |]. split; [reflexivity |]. split; [reflexivity |].
  split; [exact H4 |]. split; [apply no_fault_never |].
  exact (policy_document_two_chunks nat nat (ex_providers (fun _ => false))
           ex_engine ex_index (ex_world ∅ [("policy.txt", ex_policy)]) ∅
           ex_policy H1 eq_refl eq_refl H4 (no_fault_never _ _)).
Defined.

(** ** Concrete runs of the further properties *)

Lemma chunk_text_segments_normalised_witness :
  chunk_text "to be  or not to be " 2 = Ok ["to be"; "or not"; "to be"]
  /\ Forall normalised ["to be"; "or not"; "to be"].
Proof.
  assert (H : chunk_text "to be  or not to be " 2
              = Ok ["to be"; "or not"; "to be"]) by reflexivity.
  split; [exact H |].
  exact (chunk_text_segments_normalised _ _ _ H).
Defined.

Lemma chunk_text_segment_fixed_witness :
  chunk_text "to be  or not to be " 2 = Ok ["to be"; "or not"; "to be"]
  /\ "or not" ∈ ["to be"; "or not"; "to be"]
  /\ chunk_text "or not" 2 = Ok ["or not"].
Proof.
  assert (H : chunk_text "to be  or not to be " 2
              = Ok ["to be"; "or not"; "to be"]) by reflexivity.
  assert (Hin : "or not" ∈ ["to be"; "or not"; "to be"])
    by (right; left).
  split; [exact H |]. split; [exact Hin |].
  exact (chunk_text_segment_fixed _ _ _ _ H Hin).
Defined.

Lemma chunk_text_join_witness :
  (0 < 2)%Z
  /\ chunk_text "to be  or not to be " 2 = Ok ["to be"; "or not"; "to be"]
  /\ Py.join " " ["to be"; "or not"; "to be"]
     = Py.join " " (Py.split "to be  or not to be ").
Proof.
  assert (Hpos : (0 < 2)%Z) by lia.
  assert (H : chunk_text "to be  or not to be " 2
              = Ok ["to be"; "or not"; "to be"]) by reflexivity.
  split; [exact Hpos |]. split; [exact H |].
  exact (chunk_text_join _ _ _ Hpos H).
Defined.

Lemma ex_corpus_names : NoDup ex_corpus.*1.
Proof. apply (bool_decide_unpack _). vm_compute. exact I. Qed.

Lemma read_documents_ids_unique_witness :
  NoDup ex_corpus.*1
  /\ exists documents,
       read_documents ex_corpus [] = Ok documents
       /\ NoDup (doc_id <$> documents).
Proof.
  split; [exact ex_corpus_names |].
  exact (read_documents_ids_unique ex_corpus ex_corpus_names).
Defined.

Lemma ex_populated_index :
  pinecone (ex_world ex_records ex_many_files) !! ex_index = Some ex_records.
Proof. apply lookup_singleton_eq. Qed.

Lemma index_documents_only_adds_witness :
  index ex_engine = Some ex_index
  /\ pinecone (ex_world ex_records ex_many_files) !! ex_index
     = Some ex_records
  /\ exists r w1 recs1,
       index_documents ex_failing ex_engine (ex_world ex_records ex_many_files)
       = (r, w1)
       /\ pinecone w1
          = <[ex_index := recs1]>
              (pinecone (ex_world ex_records ex_many_files))
       /\ files w1 = files (ex_world ex_records ex_many_files)
       /\ dom ex_records ⊆ dom recs1
       /\ (forall k,
             k ∉ doc_id
                 <$> documents_of (files (ex_world ex_records ex_many_files)) ->
             recs1 !! k = ex_records !! k).
Proof.
  split; [reflexivity |]. split; [exact ex_populated_index |].
  exact (index_documents_only_adds nat nat ex_failing ex_engine ex_index
           eq_refl (ex_world ex_records ex_many_files) ex_records
           ex_populated_index).
Defined.

Lemma index_documents_calls_bounded_witness :
  index ex_engine = Some ex_index
  /\ pinecone (ex_world ex_records ex_many_files) !! ex_index
     = Some ex_records
  /\ exists r w1 calls,
       index_documents ex_failing ex_engine (ex_world ex_records ex_many_files)
       = (r, w1)
       /\ trace w1 = trace (ex_world ex_records ex_many_files) ++ calls
       /\ Forall (indexing_call ex_engine ex_index) calls
       /\ length calls
          <= length (documents_of
                       (files (ex_world ex_records ex_many_files)))
             + ceil_div
                 (length (documents_of
                            (files (ex_world ex_records ex_many_files))))
                 batch_size.
Proof.
  split; [reflexivity |]. split; [exact ex_populated_index |].
  exact (index_documents_calls_bounded nat nat ex_failing ex_engine ex_index
           eq_refl (ex_world ex_records ex_many_files) ex_records
           ex_populated_index).
Defined.

(** A directory with nothing to index. *)
Definition ex_blank_corpus : list (string * string) :=
  [("notes.bin", "skipped"); ("empty.txt", "   ")].

Lemma ex_blank_corpus_blank (filename content : string) :
  (filename, content) ∈ files (ex_world ex_records ex_blank_corpus) ->
  (Py.endswith filename ".txt" || Py.endswith filename ".md") = true ->
  blank content = true.
Proof.
  intros Hin He. simpl in Hin.
  apply elem_of_cons in Hin as [Hin|Hin].
  - injection Hin as -> ->. vm_compute in He. discriminate.
  - apply list_elem_of_singleton in Hin. injection Hin as -> ->. reflexivity.
Qed.

Lemma index_documents_empty_corpus_witness :
  (forall filename content,
     (filename, content) ∈ files (ex_world ex_records ex_blank_corpus) ->
     (Py.endswith filename ".txt" || Py.endswith filename ".md") = true ->
     blank content = true)
  /\ index_documents ex_failing ex_engine (ex_world ex_records ex_blank_corpus)
     = (Ok tt, ex_world ex_records ex_blank_corpus).
Proof.
  split; [exact ex_blank_corpus_blank |].
  exact (index_documents_empty_corpus nat nat ex_failing ex_engine
           (ex_world ex_records ex_blank_corpus) ex_blank_corpus_blank).
Defined.

(** The engine as [__init__] builds it, before [initialize]. *)
Definition ex_new_engine : Engine :=
  {| pinecone_api_key := "pc-key";
     openai_api_key := "sk-key";
     index_name := ex_index;
     index := None;
     embedding_model := "text-embedding-3-small";
     embedding_dimension := 1536;
     llm_model := "gpt-3.5-turbo" |}.

Definition ex_corpus_batch : list Document :=
  [ {| doc_id := "faq.md_0";
       doc_text := "refunds take five days";
       doc_source := "faq.md";
       doc_chunk_index := 0 |};
    {| doc_id := "policy.txt_0";
       doc_text := "remote work is allowed";
       doc_source := "policy.txt";
       doc_chunk_index := 0 |} ].

Lemma index_documents_unconnected_witness :
  index ex_new_engine = None
  /\ windows (documents_of (files (ex_world ∅ ex_corpus))) batch_size !! 0
     = Some ex_corpus_batch
  /\ no_fault (ex_providers (fun _ => false))
       (length (trace (ex_world ∅ ex_corpus))) (length ex_corpus_batch)
  /\ exists msg,
       index_documents (ex_providers (fun _ => false)) ex_new_engine
         (ex_world ∅ ex_corpus)
       = (Raise (AttributeError msg),
          log (embedding_calls ex_new_engine ex_corpus_batch)
            (ex_world ∅ ex_corpus)).
Proof.
  assert (H2 : windows (documents_of (files (ex_world ∅ ex_corpus)))
                 batch_size !! 0 = Some ex_corpus_batch) by reflexivity.
  split; [reflexivity |]. split; [exact H2 |].
  split; [apply no_fault_never |].
  exact (index_documents_unconnected nat nat (ex_providers (fun _ => false))
           ex_new_engine (ex_world ∅ ex_corpus) ex_corpus_batch
           eq_refl H2 (no_fault_never _ _)).
Defined.

Lemma ex_empty_index :
  pinecone (ex_world ∅ ex_corpus) !! ex_index = Some ∅.
Proof. apply lookup_singleton_eq. Qed.

Lemma index_documents_stores_all_witness :
  index ex_engine = Some ex_index
  /\ pinecone (ex_world ∅ ex_corpus) !! ex_index = Some ∅
  /\ NoDup (files (ex_world ∅ ex_corpus)).*1
  /\ no_fault (ex_providers (fun _ => false))
       (length (trace (ex_world ∅ ex_corpus)))
       (length (documents_of (files (ex_world ∅ ex_corpus)))
        + length (windows (documents_of (files (ex_world ∅ ex_corpus)))
                    batch_size))
  /\ exists w1 recs1,
       index_documents (ex_providers (fun _ => false)) ex_engine
         (ex_world ∅ ex_corpus) = (Ok tt, w1)
       /\ pinecone w1 !! ex_index = Some recs1
       /\ (forall d, d ∈ documents_of (files (ex_world ∅ ex_corpus)) ->
             recs1 !! doc_id d
             = Some (vector_of (ex_providers (fun _ => false)) ex_engine d))
       /\ ((∅ : gmap string (Vector nat)) = ∅ ->
           size recs1 = length (documents_of (files (ex_world ∅ ex_corpus)))).
Proof.
  split; [reflexivity |]. split; [exact ex_empty_index |].
  split; [exact ex_corpus_names |]. split; [apply no_fault_never |].
  exact (index_documents_stores_all nat nat (ex_providers (fun _ => false))
           ex_engine ex_index (ex_world ∅ ex_corpus) ∅ eq_refl ex_empty_index
           ex_corpus_names (no_fault_never _ _)).
Defined.

(** A world in which the engine's index does not exist yet. *)
Definition ex_bare_world : World nat :=
  {| pinecone := ∅; files := ex_corpus; trace := [] |}.

Lemma ex_bare_world_empty :
  from_option size 0 (pinecone ex_bare_world !! index_name ex_new_engine) = 0.
Proof. reflexivity. Qed.

Lemma initialize_first_start_witness :
  from_option size 0 (pinecone ex_bare_world !! index_name ex_new_engine) = 0
  /\ NoDup (files ex_bare_world).*1
  /\ no_fault (ex_providers (fun _ => false)) (length (trace ex_bare_world))
       (length [create_call (Vec:=nat) ex_new_engine] + 3
        + length (calls_of (ex_providers (fun _ => false))
                    (connected ex_new_engine) (index_name ex_new_engine)
                    (windows (documents_of (files ex_bare_world))
                       batch_size)))
  /\ exists self1 w1 recs1,
       initialize (ex_providers (fun _ => false)) ex_new_engine ex_bare_world
       = (Ok tt, self1, w1)
       /\ index self1 = Some (index_name ex_new_engine)
       /\ trace w1
          = trace ex_bare_world ++ [ListIndexes]
            ++ [create_call ex_new_engine]
            ++ [ConnectIndex (index_name ex_new_engine);
                DescribeIndexStats (index_name ex_new_engine)]
            ++ calls_of (ex_providers (fun _ => false))
                 (connected ex_new_engine) (index_name ex_new_engine)
                 (windows (documents_of (files ex_bare_world)) batch_size)
       /\ pinecone w1 !! index_name ex_new_engine = Some recs1
       /\ size recs1 = length (documents_of (files ex_bare_world))
       /\ (forall d, d ∈ documents_of (files ex_bare_world) ->
             recs1 !! doc_id d
             = Some (vector_of (ex_providers (fun _ => false))
                       (connected ex_new_engine) d)).
Proof.
  split; [exact ex_bare_world_empty |]. split; [exact ex_corpus_names |].
  split; [apply no_fault_never |].
  exact (initialize_first_start nat nat (ex_providers (fun _ => false))
           ex_new_engine ex_bare_world ex_bare_world_empty ex_corpus_names
           (no_fault_never _ _)).
Defined.

Lemma ex_bare_world_documents : documents_of (files ex_bare_world) <> [].
Proof. vm_compute. discriminate. Qed.

Lemma initialize_again_skips_witness :
  from_option size 0 (pinecone ex_bare_world !! index_name ex_new_engine) = 0
  /\ documents_of (files ex_bare_world) <> []
  /\ no_fault (ex_providers (fun _ => false)) (length (trace ex_bare_world))
       (length [create_call (Vec:=nat) ex_new_engine] + 3
        + length (calls_of (ex_providers (fun _ => false))
                    (connected ex_new_engine) (index_name ex_new_engine)
                    (windows (documents_of (files ex_bare_world))
                       batch_size)))
  /\ exists self1 w1 r2 self2 w2 calls,
       initialize (ex_providers (fun _ => false)) ex_new_engine ex_bare_world
       = (Ok tt, self1, w1)
       /\ initialize (ex_providers (fun _ => false)) self1 w1
          = (r2, self2, w2)
       /\ pinecone w2 = pinecone w1
       /\ trace w2 = trace w1 ++ calls
       /\ Forall (fun c => indexing_work c = false) calls.
Proof.
  split; [exact ex_bare_world_empty |].
  split; [exact ex_bare_world_documents |].
  split; [apply no_fault_never |].
  exact (initialize_again_skips nat nat (ex_providers (fun _ => false))
           ex_new_engine ex_bare_world ex_bare_world_empty
           ex_bare_world_documents (no_fault_never _ _)).
Defined.

Lemma ex_many_files_names : NoDup ex_many_files.*1.
Proof. apply (bool_decide_unpack _). vm_compute. exact I. Qed.

Lemma ex_failing_before :
  no_fault ex_failing (length (trace (ex_world ∅ ex_many_files)))
    (length (calls_of ex_failing ex_engine (index_name ex_engine)
               (take 1 (windows
                          (documents_of (files (ex_world ∅ ex_many_files)))
                          batch_size))) + 0).
Proof.
  change (index_name ex_engine) with ex_index.
  rewrite ex_first_batch_calls. intros i Hi.
  change (Nat.eqb (0 + i) 101 = false). apply Nat.eqb_neq. lia.
Qed.

Lemma ex_failing_at :
  fault ex_failing
    (length (trace (ex_world ∅ ex_many_files))
     + length (calls_of ex_failing ex_engine (index_name ex_engine)
                 (take 1 (windows
                            (documents_of (files (ex_world ∅ ex_many_files)))
                            batch_size))) + 0) = true.
Proof.
  change (index_name ex_engine) with ex_index.
  rewrite ex_first_batch_calls. reflexivity.
Qed.

Lemma ex_second_batch :
  windows (documents_of (files (ex_world ∅ ex_many_files))) batch_size !! 1
  = Some ex_last_batch.
Proof. vm_compute. reflexivity. Qed.

Lemma restart_keeps_truncated_index_witness :
  index ex_engine = Some (index_name ex_engine)
  /\ pinecone (ex_world ∅ ex_many_files) !! index_name ex_engine = Some ∅
  /\ windows (documents_of (files (ex_world ∅ ex_many_files))) batch_size !! 1
     = Some ex_last_batch
  /\ 0 < 1
  /\ 0 <= length ex_last_batch
  /\ no_fault ex_failing (length (trace (ex_world ∅ ex_many_files)))
       (length (calls_of ex_failing ex_engine (index_name ex_engine)
                  (take 1 (windows
                             (documents_of (files (ex_world ∅ ex_many_files)))
                             batch_size))) + 0)
  /\ fault ex_failing
       (length (trace (ex_world ∅ ex_many_files))
        + length (calls_of ex_failing ex_engine (index_name ex_engine)
                    (take 1 (windows
                               (documents_of
                                  (files (ex_world ∅ ex_many_files)))
                               batch_size))) + 0) = true
  /\ exists e w1 r2 self2 w2 recs2 calls,
       index_documents ex_failing ex_engine (ex_world ∅ ex_many_files)
       = (Raise e, w1)
       /\ initialize ex_failing ex_engine w1 = (r2, self2, w2)
       /\ pinecone w2 !! index_name ex_engine = Some recs2
       /\ recs2
          = upsert_batches ex_failing ex_engine ∅
              (take 1 (windows
                         (documents_of (files (ex_world ∅ ex_many_files)))
                         batch_size))
       /\ trace w2 = trace w1 ++ calls
       /\ Forall (fun c => indexing_work c = false) calls
       /\ ((∅ : gmap string (Vector nat)) = ∅ ->
           NoDup (files (ex_world ∅ ex_many_files)).*1 ->
           forall d, d ∈ ex_last_batch -> recs2 !! doc_id d = None).
Proof.
  assert (H2 : pinecone (ex_world ∅ ex_many_files) !! index_name ex_engine
               = Some ∅) by apply lookup_singleton_eq.
  assert (H4 : 0 < 1) by lia.
  assert (H5 : 0 <= length ex_last_batch) by (simpl; lia).
  split; [reflexivity |]. split; [exact H2 |].
  split; [exact ex_second_batch |]. split; [exact H4 |].
  split; [exact H5 |]. split; [exact ex_failing_before |].
  split; [exact ex_failing_at |].
  exact (restart_keeps_truncated_index nat nat ex_failing ex_engine
           (ex_world ∅ ex_many_files) ∅ 1 0 ex_last_batch
           eq_refl H2 ex_second_batch H4 H5 ex_failing_before ex_failing_at).
Defined.

Lemma query_unconnected_witness :
  index ex_new_engine = None
  /\ fault (ex_providers (fun _ => false))
       (length (trace (ex_world ex_records ex_corpus))) = false
  /\ exists msg,
       query (ex_providers (fun _ => false)) ex_new_engine
         "how long do refunds take" (ex_world ex_records ex_corpus)
       = (Raise (AttributeError msg),
          log [EmbeddingsCreate (embedding_model ex_new_engine)
                 "how long do refunds take"]
            (ex_world ex_records ex_corpus)).
Proof.
  split; [reflexivity |]. split; [reflexivity |].
  exact (query_unconnected nat nat (ex_providers (fun _ => false))
           ex_new_engine "how long do refunds take"
           (ex_world ex_records ex_corpus) eq_refl eq_refl).
Defined.

Lemma ex_query_answered :
  query (ex_providers (fun _ => false)) ex_engine "how long do refunds take"
    (ex_world ex_records ex_corpus)
  = (Ok ("I do not have enough information.", ["faq.md"; "policy.txt"]),
     (query (ex_providers (fun _ => false)) ex_engine
        "how long do refunds take" (ex_world ex_records ex_corpus)).2).
Proof. vm_compute. reflexivity. Qed.

Lemma query_answer_witness :
  query (ex_providers (fun _ => false)) ex_engine "how long do refunds take"
    (ex_world ex_records ex_corpus)
  = (Ok ("I do not have enough information.", ["faq.md"; "policy.txt"]),
     (query (ex_providers (fun _ => false)) ex_engine
        "how long do refunds take" (ex_world ex_records ex_corpus)).2)
  /\ exists handle recs chunks,
       index ex_engine = Some handle
       /\ pinecone (ex_world ex_records ex_corpus) !! handle = Some recs
       /\ no_fault (ex_providers (fun _ => false))
            (length (trace (ex_world ex_records ex_corpus))) 3
       /\ retrieve_relevant_chunks (ex_providers (fun _ => false)) ex_engine
            "how long do refunds take" default_top_k
            (ex_world ex_records ex_corpus)
          = (Ok chunks,
             log [EmbeddingsCreate (embedding_model ex_engine)
                    "how long do refunds take";
                  QueryIndex handle
                    (embedding (ex_providers (fun _ => false))
                       (embedding_model ex_engine) "how long do refunds take")
                    default_top_k true]
               (ex_world ex_records ex_corpus))
       /\ "I do not have enough information."
          = completion (ex_providers (fun _ => false)) (llm_model ex_engine)
              (chat_messages
                 (build_prompt "how long do refunds take"
                    (build_context chunks)))
       /\ ["faq.md"; "policy.txt"] = list_of_set (chunk_source <$> chunks)
       /\ NoDup ["faq.md"; "policy.txt"]
       /\ length ["faq.md"; "policy.txt"] <= 3.
Proof.
  split; [exact ex_query_answered |].
  exact (query_answer nat nat (ex_providers (fun _ => false)) ex_engine
           "how long do refunds take" (ex_world ex_records ex_corpus) _ _ _
           ex_query_answered).
Defined.

(** An environment with both keys. *)
Definition ex_environ : gmap string string :=
  <["PINECONE_API_KEY" := "pc-key"]> (<["OPENAI_API_KEY" := "sk-key"]> ∅).

Lemma ex_lifespan_completes :
  lifespan (ex_providers (fun _ => false)) ex_environ ex_bare_world
  = (Ok tt,
     (lifespan (ex_providers (fun _ => false)) ex_environ ex_bare_world).1.2,
     (lifespan (ex_providers (fun _ => false)) ex_environ ex_bare_world).2).
Proof. vm_compute. reflexivity. Qed.

Lemma lifespan_ready_witness :
  lifespan (ex_providers (fun _ => false)) ex_environ ex_bare_world
  = (Ok tt,
     (lifespan (ex_providers (fun _ => false)) ex_environ ex_bare_world).1.2,
     (lifespan (ex_providers (fun _ => false)) ex_environ ex_bare_world).2)
  /\ exists engine,
       (lifespan (ex_providers (fun _ => false)) ex_environ ex_bare_world).1.2
       = Some engine
       /\ index engine = Some "acme-tech-chatbot"
       /\ is_Some
            (pinecone
               (lifespan (ex_providers (fun _ => false)) ex_environ
                  ex_bare_world).2 !! "acme-tech-chatbot")
       /\ ex_environ !! "PINECONE_API_KEY" = Some (pinecone_api_key engine)
       /\ pinecone_api_key engine <> ""
       /\ ex_environ !! "OPENAI_API_KEY" = Some (openai_api_key engine)
       /\ openai_api_key engine <> "".
Proof.
  split; [exact ex_lifespan_completes |].
  exact (lifespan_ready nat nat (ex_providers (fun _ => false)) ex_environ
           ex_bare_world _ _ ex_lifespan_completes).
Defined.

(** An environment whose Pinecone key is set but empty. *)
Definition ex_empty_key_environ : gmap string string :=
  <["PINECONE_API_KEY" := ""]> (<["OPENAI_API_KEY" := "sk-key"]> ∅).

Lemma ex_empty_key :
  unset_or_empty (ex_empty_key_environ !! "PINECONE_API_KEY")
  \/ unset_or_empty (ex_empty_key_environ !! "OPENAI_API_KEY").
Proof. left. right. apply lookup_insert_eq. Qed.

Lemma lifespan_rejects_empty_keys_witness :
  (unset_or_empty (ex_empty_key_environ !! "PINECONE_API_KEY")
   \/ unset_or_empty (ex_empty_key_environ !! "OPENAI_API_KEY"))
  /\ exists msg,
       lifespan (ex_providers (fun _ => false)) ex_empty_key_environ
         ex_bare_world
       = (Raise (ValueError msg), None, ex_bare_world)
       /\ (unset_or_empty (ex_empty_key_environ !! "PINECONE_API_KEY") ->
           msg = "PINECONE_API_KEY not found in environment variables").
Proof.
  split; [exact ex_empty_key |].
  exact (lifespan_rejects_empty_keys nat nat (ex_providers (fun _ => false))
           ex_empty_key_environ ex_bare_world ex_empty_key).
Defined.
